(** * eos_exporter: the eosclient text-protocol parser

    A shallow embedding of [eosclient/eos.go]: the monitoring-line
    tokenizer [getMap], the per-entity record projectors, the listing
    parsers, the version and namespace parsers and the exit-code
    classification of [execute], followed by the properties of the
    specification that concern them.

    Go strings are byte sequences: they are modelled as [string] (one
    [ascii] per byte).  Go maps are [gmap string string].  A run-time
    panic (index out of range, nil dereference) is an explicit outcome. *)

From Stdlib Require Import ZArith NArith Ascii String DecimalString List Lia.
From stdpp Require Import base option list gmap strings.

Local Open Scope string_scope.

(** ** Go run-time outcomes *)

Module Go.

(** The run-time panics the modelled code can raise. *)
Inductive panic : Type :=
| IndexOutOfRange (index len : nat)
| NilDereference.

(** Codes of the [api] package used by the older [execute]. *)
Inductive apiCode : Type :=
| StorageNotFoundErrorCode.

(** Values of the [error] interface that reach the modelled code. *)
Inductive error : Type :=
| ExitError (sys : option Z)
    (* [*exec.ExitError]; [sys] is the [ExitStatus()] of its
       [syscall.WaitStatus], when [Sys()] is one *)
| ApiError (code : apiCode)          (* [api.NewError(code)] *)
| ErrorString (msg : string)         (* [errors.New], [fmt.Errorf] *)
| RunError (msg : string).
    (* any other failure of [cmd.Run]: start failure, deadline, I/O *)

(** A call either returns a value, returns a non-nil [error], or panics. *)
Inductive result (A : Type) : Type :=
| Ok (a : A)
| Err (e : error)
| Panic (p : panic).
Arguments Ok {A} a.
Arguments Err {A} e.
Arguments Panic {A} p.

(** Sequencing: an error or a panic ends the call. *)
#[export] Instance result_bind : MBind result := fun A B k r =>
  match r with
  | Ok a => k a
  | Err e => Err e
  | Panic p => Panic p
  end.

(** [xs[i]] on a slice. *)
Definition index {A} (xs : list A) (i : nat) : result A :=
  match nth_error xs i with
  | Some x => Ok x
  | None => Panic (IndexOutOfRange i (List.length xs))
  end.

(** [m[k]] on a [map[string]string]: the zero value when [k] is absent. *)
Definition mapIndex (m : gmap string string) (k : string) : string :=
  default "" (m !! k).

(** [_, ok := m[k]]. *)
Definition mapHas (m : gmap string string) (k : string) : bool :=
  bool_decide (is_Some (m !! k)).

End Go.

Export Go.

(** ** unicode/utf8: decoding one rune *)

Module Utf8.

Definition rune := N.
Definition RuneError : rune := 0xFFFD%N.

Definition byteN (c : ascii) : N := N_of_ascii c.

(** The table [first] together with [acceptRanges]: for a lead byte,
    the length of the sequence and the range accepted for the second
    byte; [None] for the bytes marked invalid. ASCII is handled by the
    caller. *)
Definition first (s0 : N) : option (nat * N * N) :=
  (if s0 <? 0xC2 then None
   else if s0 <=? 0xDF then Some (2%nat, 0x80, 0xBF)
   else if s0 =? 0xE0 then Some (3%nat, 0xA0, 0xBF)
   else if s0 <=? 0xEC then Some (3%nat, 0x80, 0xBF)
   else if s0 =? 0xED then Some (3%nat, 0x80, 0x9F)
   else if s0 <=? 0xEF then Some (3%nat, 0x80, 0xBF)
   else if s0 =? 0xF0 then Some (4%nat, 0x90, 0xBF)
   else if s0 <=? 0xF3 then Some (4%nat, 0x80, 0xBF)
   else if s0 =? 0xF4 then Some (4%nat, 0x80, 0x8F)
   else None)%N.

Definition inRange (lo hi b : N) : bool := ((lo <=? b) && (b <=? hi))%N.
Definition cont (b : N) : bool := inRange 0x80 0xBF b.
Definition low (bits : N) (b : N) : N := N.land b (N.ones bits).

(** [utf8.DecodeRuneInString]: the rune at the head of [s] and the
    number of bytes it occupies. *)
Definition DecodeRuneInString (s : string) : rune * nat :=
  match s with
  | EmptyString => (RuneError, 0)
  | String c0 t0 =>
    let s0 := byteN c0 in
    if (s0 <? 0x80)%N then (s0, 1)
    else
      match first s0 with
      | None => (RuneError, 1)
      | Some (sz, lo, hi) =>
        if Nat.ltb (String.length s) sz then (RuneError, 1)
        else
          match t0 with
          | EmptyString => (RuneError, 1)
          | String c1 t1 =>
            let s1 := byteN c1 in
            if negb (inRange lo hi s1) then (RuneError, 1)
            else if Nat.leb sz 2 then
              (N.lor (N.shiftl (low 5 s0) 6) (low 6 s1), 2)
            else
              match t1 with
              | EmptyString => (RuneError, 1)
              | String c2 t2 =>
                let s2 := byteN c2 in
                if negb (cont s2) then (RuneError, 1)
                else if Nat.leb sz 3 then
                  (N.lor (N.shiftl (low 4 s0) 12)
                     (N.lor (N.shiftl (low 6 s1) 6) (low 6 s2)), 3)
                else
                  match t2 with
                  | EmptyString => (RuneError, 1)
                  | String c3 _ =>
                    let s3 := byteN c3 in
                    if negb (cont s3) then (RuneError, 1)
                    else
                      (N.lor (N.shiftl (low 3 s0) 18)
                         (N.lor (N.shiftl (low 6 s1) 12)
                            (N.lor (N.shiftl (low 6 s2) 6) (low 6 s3))), 4)
                  end
              end
          end
      end
  end.

(** [s[:n]] and [s[n:]]. *)
Fixpoint take (n : nat) (s : string) : string :=
  match n, s with
  | S k, String c t => String c (take k t)
  | _, _ => EmptyString
  end.

Fixpoint drop (n : nat) (s : string) : string :=
  match n, s with
  | S k, String _ t => drop k t
  | _, _ => s
  end.

(** [for _, r := range s]: the runes of [s] in order, each with the
    bytes it was decoded from.  Every step consumes at least one byte,
    so [length s] steps suffice. *)
Fixpoint rangeFuel (fuel : nat) (s : string) : list (rune * string) :=
  match fuel, s with
  | S k, String _ _ =>
    let '(r, w) := DecodeRuneInString s in
    (r, take w s) :: rangeFuel k (drop w s)
  | _, _ => []
  end.

Definition range (s : string) : list (rune * string) :=
  rangeFuel (String.length s) s.

End Utf8.

(** ** unicode: the two predicates used by the tokenizer *)

Module Unicode.
Import Utf8.

(** A [Range16] entry: [lo], [hi], [stride].  The tables are sorted and
    their entries disjoint, so the search of [is16] finds a rune exactly
    when some entry holds it. *)
Definition inEntry (r : rune) (e : N * N * N) : bool :=
  let '(lo, hi, stride) := e in
  ((lo <=? r) && (r <=? hi) && ((r - lo) mod stride =? 0))%N.

(** [unicode.Quotation_Mark]. *)
Definition Quotation_Mark : list (N * N * N) :=
  [ (0x0022, 0x0027, 5); (0x00AB, 0x00BB, 16); (0x2018, 0x201F, 1);
    (0x2039, 0x203A, 1); (0x2E42, 0x2E42, 1); (0x300C, 0x300F, 1);
    (0x301D, 0x301F, 1); (0xFE41, 0xFE44, 1); (0xFF02, 0xFF07, 5);
    (0xFF62, 0xFF63, 1) ]%N.

(** [unicode.In(r, tab)]. *)
Definition In_ (r : rune) (tab : list (N * N * N)) : bool :=
  existsb (inEntry r) tab.

(** [unicode.White_Space] behind its Latin-1 entries, as
    [isExcludingLatin] searches it. *)
Definition White_Space_tail : list (N * N * N) :=
  [ (0x00A0, 0x1680, 5600); (0x2000, 0x200A, 1); (0x2028, 0x2029, 1);
    (0x202F, 0x205F, 48); (0x3000, 0x3000, 1) ]%N.

(** [unicode.IsSpace]: the Latin-1 switch, then [White_Space] beyond it. *)
Definition IsSpace (r : rune) : bool :=
  (if r <=? 0xFF then
     (r =? 0x09) || (r =? 0x0A) || (r =? 0x0B) || (r =? 0x0C) ||
     (r =? 0x0D) || (r =? 0x20) || (r =? 0x85) || (r =? 0xA0)
   else In_ r White_Space_tail)%N.

End Unicode.

(** ** strings: Index, Split, FieldsFunc *)

Module Strings.
Import Utf8.

(** [strings.Index(s, sep)]: offset of the first occurrence. *)
Fixpoint Index (s sep : string) : option nat :=
  if String.prefix sep s then Some 0
  else
    match s with
    | EmptyString => None
    | String _ t => S <$> Index t sep
    end.

(** The loop of [genSplit] for a non-empty separator: cut at the first
    occurrence and go on behind it.  At most [length s] cuts happen. *)
Fixpoint genSplit (fuel : nat) (s sep : string) : list string :=
  match fuel with
  | O => [s]
  | S k =>
    match Index s sep with
    | None => [s]
    | Some m => take m s :: genSplit k (drop (m + String.length sep) s) sep
    end
  end.

(** [strings.Split(s, sep)]; an empty separator explodes [s] into its
    UTF-8 sequences. *)
Definition Split (s sep : string) : list string :=
  match sep with
  | EmptyString => map snd (range s)
  | _ => genSplit (String.length s) s sep
  end.

(** The scanning loop of [strings.FieldsFunc].  The predicate is called
    once per rune, in order; since the tokenizer's predicate is a
    closure over a variable, its state [st] is threaded through.
    [start] holds the bytes of the field being scanned, that is
    [s[start:end]], when a field is open. *)
Fixpoint fieldsLoop {St : Type} (f : St -> rune -> bool * St) (st : St)
    (start : option string) (rs : list (rune * string)) : list string :=
  match rs with
  | [] =>
    match start with
    | Some cur => [cur]
    | None => []
    end
  | (r, bytes) :: rs' =>
    let '(b, st') := f st r in
    if b then
      match start with
      | Some cur => cur :: fieldsLoop f st' None rs'
      | None => fieldsLoop f st' None rs'
      end
    else
      match start with
      | Some cur => fieldsLoop f st' (Some (cur ++ bytes)) rs'
      | None => fieldsLoop f st' (Some bytes) rs'
      end
  end.

Definition FieldsFunc {St : Type} (s : string)
    (f : St -> rune -> bool * St) (st : St) : list string :=
  fieldsLoop f st None (range s).

End Strings.

(** ** strconv.Itoa *)

Definition Itoa (i : Z) : string := NilZero.string_of_int (Z.to_int i).

(** ** package eosclient: records *)

Module NodeInfo.
Record t : Type := mk {
  Hostport : string;
  Status : string;
  Nofs : string;
  SumStatStatfsFree : string;
  SumStatStatfsUsed : string;
  SumStatStatfsTotal : string;
  SumStatStatFilesFree : string;
  SumStatStatFilesUsed : string;
  SumStatStatFilesTotal : string;
  SumStatRopen : string;
  SumStatWopen : string;
  CfgStatSysThreads : string;
  SumStatNetInratemib : string;
  SumStatNetOutratemib : string
}.
End NodeInfo.

(** The struct literal of [parseNodeInfo]: every field reads one fixed key. *)
Definition nodeInfoOf (kv : gmap string string) : NodeInfo.t :=
  NodeInfo.mk
    (mapIndex kv "hostport")
    (mapIndex kv "status")
    (mapIndex kv "nofs")
    (mapIndex kv "sum.stat.statfs.freebytes")
    (mapIndex kv "sum.stat.statfs.usedbytes")
    (mapIndex kv "sum.stat.statfs.capacity")
    (mapIndex kv "sum.stat.statfs.ffree")
    (mapIndex kv "sum.stat.usedfiles")
    (mapIndex kv "sum.stat.statfs.files")
    (mapIndex kv "sum.stat.ropen")
    (mapIndex kv "sum.stat.wopen")
    (mapIndex kv "cfg.stat.sys.threads")
    (mapIndex kv "sum.stat.net.inratemib")
    (mapIndex kv "sum.stat.net.outratemib").

Module SpaceInfo.
Record t : Type := mk {
  Type_ : string;
  Name : string;
  CfgGroupSize : string;
  CfgGroupMod : string;
  Nofs : string;
  AvgStatDiskLoad : string;
  SigStatDiskLoad : string;
  SumStatDiskReadratemb : string;
  SumStatDiskWriteratemb : string;
  SumStatNetEthratemib : string;
  SumStatNetInratemib : string;
  SumStatNetOutratemib : string;
  SumStatRopen : string;
  SumStatWopen : string;
  SumStatStatfsUsedbytes : string;
  SumStatStatfsFreebytes : string;
  SumStatStatfsCapacity : string;
  SumStatUsedfiles : string;
  SumStatStatfsFfiles : string;
  SumStatStatfsFiles : string;
  SumStatStatfsCapacityConfigstatusRw : string;
  SumNofsConfigstatusRw : string;
  CfgQuota : string;
  CfgNominalsize : string;
  CfgBalancer : string;
  CfgBalancerThreshold : string;
  SumStatBalancerRunning : string;
  SumStatDrainerRunning : string;
  SumStatDiskIopsConfigstatusRw : string;
  SumStatDiskBwConfigstatusRw : string
}.
End SpaceInfo.

(** The struct literal of [parseSpaceInfo]: every field reads one fixed key. *)
Definition spaceInfoOf (kv : gmap string string) : SpaceInfo.t :=
  SpaceInfo.mk
    (mapIndex kv "type")
    (mapIndex kv "name")
    (mapIndex kv "cfg.groupsize")
    (mapIndex kv "cfg.groupmod")
    (mapIndex kv "nofs")
    (mapIndex kv "avg.stat.disk.load")
    (mapIndex kv "sig.stat.disk.load")
    (mapIndex kv "sum.stat.disk.readratemb")
    (mapIndex kv "sum.stat.disk.writeratemb")
    (mapIndex kv "sum.stat.net.ethratemib")
    (mapIndex kv "sum.stat.net.inratemib")
    (mapIndex kv "sum.stat.net.outratemib")
    (mapIndex kv "sum.stat.ropen")
    (mapIndex kv "sum.stat.wopen")
    (mapIndex kv "sum.stat.statfs.usedbytes")
    (mapIndex kv "sum.stat.statfs.freebytes")
    (mapIndex kv "sum.stat.statfs.capacity")
    (mapIndex kv "sum.stat.usedfiles")
    (mapIndex kv "sum.stat.statfs.ffiles")
    (mapIndex kv "sum.stat.statfs.files")
    (mapIndex kv "sum.stat.statfs.capacity?configstatus@rw")
    (mapIndex kv "sum.<n>?configstatus@rw")
    (mapIndex kv "cfg.quota")
    (mapIndex kv "cfg.nominalsize")
    (mapIndex kv "cfg.balancer")
    (mapIndex kv "cfg.balancer.threshold")
    (mapIndex kv "sum.stat.balancer.running")
    (mapIndex kv "sum.stat.drainer.running")
    (mapIndex kv "sum.stat.disk.iops?configstatus@rw")
    (mapIndex kv "sum.stat.disk.bw?configstatus@rw").

Module GroupInfo.
Record t : Type := mk {
  Name : string;
  CfgStatus : string;
  Nofs : string;
  AvgStatDiskLoad : string;
  SigStatDiskLoad : string;
  SumStatDiskReadratemb : string;
  SumStatDiskWriteratemb : string;
  SumStatNetEthratemib : string;
  SumStatNetInratemib : string;
  SumStatNetOutratemib : string;
  SumStatRopen : string;
  SumStatWopen : string;
  SumStatStatfsUsedbytes : string;
  SumStatStatfsFreebytes : string;
  SumStatStatfsCapacity : string;
  SumStatUsedfiles : string;
  SumStatStatfsFfree : string;
  SumStatStatfsFiles : string;
  DevStatStatfsFilled : string;
  AvgStatStatfsFilled : string;
  SigStatStatfsFilled : string;
  CfgStatBalancing : string;
  SumStatBalancerRunning : string;
  SumStatDrainerRunning : string
}.
End GroupInfo.

(** The struct literal of [parseGroupInfo]: every field reads one fixed key. *)
Definition groupInfoOf (kv : gmap string string) : GroupInfo.t :=
  GroupInfo.mk
    (mapIndex kv "name")
    (mapIndex kv "cfg.status")
    (mapIndex kv "nofs")
    (mapIndex kv "avg.stat.disk.load")
    (mapIndex kv "sig.stat.disk.load")
    (mapIndex kv "sum.stat.disk.readratemb")
    (mapIndex kv "sum.stat.disk.writeratemb")
    (mapIndex kv "sum.stat.net.ethratemib")
    (mapIndex kv "sum.stat.net.inratemib")
    (mapIndex kv "sum.stat.net.outratemib")
    (mapIndex kv "sum.stat.ropen")
    (mapIndex kv "sum.stat.wopen")
    (mapIndex kv "sum.stat.statfs.usedbytes")
    (mapIndex kv "sum.stat.statfs.freebytes")
    (mapIndex kv "sum.stat.statfs.capacity")
    (mapIndex kv "sum.stat.usedfiles")
    (mapIndex kv "sum.stat.statfs.ffree")
    (mapIndex kv "sum.stat.statfs.files")
    (mapIndex kv "dev.stat.statfs.filled")
    (mapIndex kv "avg.stat.statfs.filled")
    (mapIndex kv "sig.stat.statfs.filled")
    (mapIndex kv "cfg.stat.balancing")
    (mapIndex kv "sum.stat.balancer.running")
    (mapIndex kv "sum.stat.drainer.running").

Module FSInfo.
Record t : Type := mk {
  Host : string;
  Port : string;
  Id : string;
  Uuid : string;
  Path : string;
  Schedgroup : string;
  StatBoot : string;
  Configstatus : string;
  Headroom : string;
  StatErrc : string;
  StatErrmsg : string;
  StatDiskLoad : string;
  StatDiskReadratemb : string;
  StatDiskWriteratemb : string;
  StatNetEthratemib : string;
  StatNetInratemib : string;
  StatNetOutratemib : string;
  StatRopen : string;
  StatWopen : string;
  StatStatfsFreebytes : string;
  StatStatfsUsedbytes : string;
  StatStatfsCapacity : string;
  StatUsedfiles : string;
  StatStatfsFfree : string;
  StatStatfsFused : string;
  StatStatfsFiles : string;
  Drainstatus : string;
  StatDrainprogress : string;
  StatDrainfiles : string;
  StatDrainbytesleft : string;
  StatDrainretry : string;
  StatDrainFailed : string;
  Graceperiod : string;
  StatTimeleft : string;
  StatActive : string;
  StatBalancerRunning : string;
  StatDrainerRunning : string;
  StatDiskIops : string;
  StatDiskBw : string;
  StatGeotag : string;
  StatHealth : string;
  StatHealthRedundancyFactor : string;
  StatHealthDrivesFailed : string;
  StatHealthDrivesTotal : string;
  StatHealthIndicator : string
}.
End FSInfo.

(** The struct literal of [parseFSInfo]: every field reads one fixed key. *)
Definition fsInfoOf (kv : gmap string string) : FSInfo.t :=
  FSInfo.mk
    (mapIndex kv "host")
    (mapIndex kv "port")
    (mapIndex kv "id")
    (mapIndex kv "uuid")
    (mapIndex kv "path")
    (mapIndex kv "schedgroup")
    (mapIndex kv "stat.boot")
    (mapIndex kv "configstatus")
    (mapIndex kv "headroom")
    (mapIndex kv "stat.errc")
    (mapIndex kv "stat.errmsg")
    (mapIndex kv "stat.disk.load")
    (mapIndex kv "stat.disk.readratemb")
    (mapIndex kv "stat.disk.writeratemb")
    (mapIndex kv "stat.net.ethratemib")
    (mapIndex kv "stat.net.inratemib")
    (mapIndex kv "stat.net.outratemib")
    (mapIndex kv "stat.ropen")
    (mapIndex kv "stat.wopen")
    (mapIndex kv "stat.statfs.freebytes")
    (mapIndex kv "stat.statfs.usedbytes")
    (mapIndex kv "stat.statfs.capacity")
    (mapIndex kv "stat.usedfiles")
    (mapIndex kv "stat.statfs.ffree")
    (mapIndex kv "stat.statfs.fused")
    (mapIndex kv "stat.statfs.files")
    (mapIndex kv "drainstatus")
    (mapIndex kv "stat.drainprogress")
    (mapIndex kv "stat.drainfiles")
    (mapIndex kv "stat.drainbytesleft")
    (mapIndex kv "stat.drainretry")
    (mapIndex kv "stat.drain.failed")
    (mapIndex kv "graceperiod")
    (mapIndex kv "stat.timeleft")
    (mapIndex kv "stat.active")
    (mapIndex kv "stat.balancer.running")
    (mapIndex kv "stat.drainer.running")
    (mapIndex kv "stat.disk.iops")
    (mapIndex kv "stat.disk.bw")
    (mapIndex kv "stat.geotag")
    (mapIndex kv "stat.health")
    (mapIndex kv "stat.health.redundancy_factor")
    (mapIndex kv "stat.health.drives_failed")
    (mapIndex kv "stat.health.drives_total")
    (mapIndex kv "stat.health.indicator").

Module NSInfo.
Record t : Type := mk {
  Boot_file_time : string;
  Boot_status : string;
  Boot_time : string;
  Cache_container_maxsize : string;
  Cache_container_occupancy : string;
  Cache_files_maxsize : string;
  Cache_files_occupancy : string;
  Fds_all : string;
  Fusex_activeclients : string;
  Fusex_caps : string;
  Fusex_clients : string;
  Fusex_lockedclients : string;
  Latency_dirs : string;
  Latency_files : string;
  Latency_pending_updates : string;
  Latencypeak_eosviewmutex_1min : string;
  Latencypeak_eosviewmutex_2min : string;
  Latencypeak_eosviewmutex_5min : string;
  Latencypeak_eosviewmutex_last : string;
  Memory_growth : string;
  Memory_resident : string;
  Memory_share : string;
  Memory_virtual : string;
  Stat_threads : string;
  Total_directories : string;
  Total_directories_changelog_avg_entry_size : string;
  Total_directories_changelog_size : string;
  Total_files : string;
  Total_files_changelog_avg_entry_size : string;
  Total_files_changelog_size : string;
  Uptime : string
}.
End NSInfo.

(** The [&NSInfo{...}] literal of [parseNSsInfo]: every field reads one fixed key. *)
Definition nsInfoOf (kv : gmap string string) : NSInfo.t :=
  NSInfo.mk
    (mapIndex kv "ns.boot.file.time")
    (mapIndex kv "ns.boot.status")
    (mapIndex kv "ns.boot.time")
    (mapIndex kv "ns.cache.containers.maxsize")
    (mapIndex kv "ns.cache.containers.occupancy")
    (mapIndex kv "ns.cache.files.maxsize")
    (mapIndex kv "ns.cache.files.occupancy")
    (mapIndex kv "ns.fds.all")
    (mapIndex kv "ns.fusex.activeclients")
    (mapIndex kv "ns.fusex.caps")
    (mapIndex kv "ns.fusex.clients")
    (mapIndex kv "ns.fusex.lockedclients")
    (mapIndex kv "ns.latency.dirs")
    (mapIndex kv "ns.latency.files")
    (mapIndex kv "ns.latency.pending.updates")
    (mapIndex kv "ns.latencypeak.eosviewmutex.1min")
    (mapIndex kv "ns.latencypeak.eosviewmutex.2min")
    (mapIndex kv "ns.latencypeak.eosviewmutex.5min")
    (mapIndex kv "ns.latencypeak.eosviewmutex.last")
    (mapIndex kv "ns.memory.growth")
    (mapIndex kv "ns.memory.resident")
    (mapIndex kv "ns.memory.share")
    (mapIndex kv "ns.memory.virtual")
    (mapIndex kv "ns.stat.threads")
    (mapIndex kv "ns.total.directories")
    (mapIndex kv "ns.total.directories.changelog.avg_entry_size")
    (mapIndex kv "ns.total.directories.changelog.size")
    (mapIndex kv "ns.total.files")
    (mapIndex kv "ns.total.files.changelog.avg_entry_size")
    (mapIndex kv "ns.total.files.changelog.size")
    (mapIndex kv "ns.uptime").

Module NSActivityInfo.
Record t : Type := mk {
  User : string;
  Gid : string;
  Operation : string;
  Sum : string;
  Last_5s : string;
  Last_60s : string;
  Last_300s : string;
  Last_3600s : string;
  Exec : string;
  Sigma : string;
  Exec99 : string;
  Max : string
}.
End NSActivityInfo.

(** The [&NSActivityInfo{...}] literal of [parseNSsInfo]: every field reads one fixed key. *)
Definition nsActivityInfoOf (kv : gmap string string) : NSActivityInfo.t :=
  NSActivityInfo.mk
    (mapIndex kv "uid")
    (mapIndex kv "gid")
    (mapIndex kv "cmd")
    (mapIndex kv "total")
    (mapIndex kv "5s")
    (mapIndex kv "60s")
    (mapIndex kv "300s")
    (mapIndex kv "3600s")
    (mapIndex kv "exec")
    (mapIndex kv "execsig")
    (mapIndex kv "exec99")
    (mapIndex kv "execmax").

Module VSInfo.
Record t : Type := mk {
  EOSmgm : string;
  Hostname : string;
  Port : string;
  Geotag : string;
  Vsize : string;
  Rss : string;
  Threads : string;
  Sockets : string;
  EOSfst : string;
  Xrootdfst : string;
  KernelV : string;
  Start : string;
  Uptime : string
}.
End VSInfo.


(** The JSON document of [eos --json node ls], after [json.Unmarshal].
    Pointers may be nil: a [null] or absent [cfg] leaves [Cfg] nil, and a
    [null] element of [result] is a nil [*NodeLS]. *)
Module Sys.
Record t : Type := mk {
  Eos_Start : string;
  Eos_Version : string;
  Kernel : string;
  Rss : Z;
  Sockets : Z;
  Threads : Z;
  Uptime : string;
  Vsize : Z;
  Xrootd_Version : string
}.
End Sys.

Module Stat.
Record t : Type := mk { Geotag : string; Sys : Sys.t }.
End Stat.

Module NodeLSCfg.
Record t : Type := mk { Stat : Stat.t }.
End NodeLSCfg.

Module NodeLS.
Record t : Type := mk { HostPort : string; Cfg : option NodeLSCfg.t }.
End NodeLS.

Module NodeLSResponse.
Record t : Type := mk { ErrorMsg : string; Result : list (option NodeLS.t) }.
End NodeLSResponse.

(** ** package eosclient: functions *)

(** The bytes that cannot be written inside a string literal. *)
Definition dquote : string := String "034"%char "".
Definition newline : string := String "010"%char "".

(** What [cmd.Run] leaves behind: the two buffers and its error. *)
Record RunOutcome : Type := mkRun {
  outBuf : string;
  errBuf : string;
  runErr : option error
}.

(** [execute], after [cmd.Run] has produced [run].  The two revisions of
    the file differ only in the error built for exit status 2, passed
    here as [notFound].  The optional logging of the command line does
    not touch the returned triple and is left out. *)
Definition executeWith (notFound : error) (run : RunOutcome)
    : string * string * option error :=
  let err :=
    match runErr run with
    | Some (ExitError (Some status)) =>
      if (status =? 2)%Z then Some notFound else runErr run
    | e => e
    end in
  (outBuf run, errBuf run, err).

(** [err = fmt.Errorf("error: FIXME")] *)
Definition execute : RunOutcome -> string * string * option error :=
  executeWith (ErrorString "error: FIXME").

(** [err = api.NewError(api.StorageNotFoundErrorCode)], the revision under
    [eosclient/eos.go]. *)
Definition execute_api : RunOutcome -> string * string * option error :=
  executeWith (ApiError StorageNotFoundErrorCode).

(** [getHostname]: both indexings of the split are checked at run time. *)
Definition getHostname (hostport : string) : result (string * string) :=
  let split := Strings.Split hostport ":" in
  h ← index split 0;
  p ← index split 1;
  Ok (h, p).

(** The closure [f] of [getMap]; [lastQuote] is the captured variable. *)
Definition f (lastQuote c : Utf8.rune) : bool * Utf8.rune :=
  if (c =? lastQuote)%N then (false, 0%N)
  else if negb (lastQuote =? 0)%N then (false, lastQuote)
  else if Unicode.In_ c Unicode.Quotation_Mark then (false, c)
  else (Unicode.IsSpace c, lastQuote).

(** [items := strings.FieldsFunc(line, f)] with [lastQuote := rune(0)]. *)
Definition items (line : string) : list string :=
  Strings.FieldsFunc line f 0%N.

(** The loop [for _, item := range items { x := ...; m[x[0]] = x[1] }]. *)
Fixpoint fillMap (m : gmap string string) (its : list string)
    : result (gmap string string) :=
  match its with
  | [] => Ok m
  | item :: rest =>
    let x := Strings.Split item "=" in
    k ← index x 0;
    v ← index x 1;
    fillMap (<[k := v]> m) rest
  end.

(** Convert a monitoring format line into a map. *)
Definition getMap (line : string) : result (gmap string string) :=
  fillMap ∅ (items line).

(** The loop shared by the four listing parsers: skip empty lines, parse
    each other line, stop at the first error, append otherwise. *)
Fixpoint parseLines {A : Type} (parseOne : string -> result A)
    (infos : list A) (rawLines : list string) : result (list A) :=
  match rawLines with
  | [] => Ok infos
  | rl :: rest =>
    if String.eqb rl "" then parseLines parseOne infos rest
    else
      info ← parseOne rl;
      parseLines parseOne (infos ++ [info]) rest
  end.

Definition parseNodeInfo (line : string) : result NodeInfo.t :=
  kv ← getMap line; Ok (nodeInfoOf kv).

Definition parseNodesInfo (raw : string) : result (list NodeInfo.t) :=
  parseLines parseNodeInfo [] (Strings.Split raw newline).

Definition parseSpaceInfo (line : string) : result SpaceInfo.t :=
  kv ← getMap line; Ok (spaceInfoOf kv).

Definition parseSpacesInfo (raw : string) : result (list SpaceInfo.t) :=
  parseLines parseSpaceInfo [] (Strings.Split raw newline).

Definition parseGroupInfo (line : string) : result GroupInfo.t :=
  kv ← getMap line; Ok (groupInfoOf kv).

Definition parseGroupsInfo (raw : string) : result (list GroupInfo.t) :=
  parseLines parseGroupInfo [] (Strings.Split raw newline).

Definition parseFSInfo (line : string) : result FSInfo.t :=
  kv ← getMap line; Ok (fsInfoOf kv).

Definition parseFSsInfo (raw : string) : result (list FSInfo.t) :=
  parseLines parseFSInfo [] (Strings.Split raw newline).

(** The uptime block of [parseVSsInfo]: the derived value and what
    [fmt.Println] writes to standard output. *)
Definition parseUptime (uptime : string) : result (string * list string) :=
  s ← index (Strings.Split uptime "%20days,") 0;
  let upt := Strings.Split s "up%20" in
  if Nat.ltb (List.length upt) 2 then
    Ok ("0", ["Wrong uptime:  [" ++ String.concat " " upt ++ "]" ++ newline])
  else
    u ← index upt 1; Ok (u, []).

(** One iteration of the loop of [parseVSsInfo]. *)
Definition parseVSInfo (mgmVersion : string) (node : option NodeLS.t)
    : result (VSInfo.t * list string) :=
  n ← (match node with Some n => Ok n | None => Panic NilDereference end);
  hp ← getHostname (NodeLS.HostPort n);
  cfg ← (match NodeLS.Cfg n with Some c => Ok c | None => Panic NilDereference end);
  let st := NodeLSCfg.Stat cfg in
  let sys := Stat.Sys st in
  up ← parseUptime (Sys.Uptime sys);
  Ok ({| VSInfo.EOSmgm := mgmVersion;
         VSInfo.Hostname := hp.1;
         VSInfo.Port := hp.2;
         VSInfo.Geotag := Stat.Geotag st;
         VSInfo.Vsize := Itoa (Sys.Vsize sys);
         VSInfo.Rss := Itoa (Sys.Rss sys);
         VSInfo.Threads := Itoa (Sys.Threads sys);
         VSInfo.Sockets := Itoa (Sys.Sockets sys);
         VSInfo.EOSfst := Sys.Eos_Version sys;
         VSInfo.Xrootdfst := Sys.Xrootd_Version sys;
         VSInfo.KernelV := Sys.Kernel sys;
         VSInfo.Start := Sys.Eos_Start sys;
         VSInfo.Uptime := up.1 |}, up.2).

Fixpoint parseVSsLoop (mgmVersion : string) (vsinfos : list VSInfo.t)
    (out : list string) (nodes : list (option NodeLS.t))
    : result (list VSInfo.t * list string) :=
  match nodes with
  | [] => Ok (vsinfos, out)
  | node :: rest =>
    r ← parseVSInfo mgmVersion node;
    parseVSsLoop mgmVersion (vsinfos ++ [r.1]) (out ++ r.2) rest
  end.

(** Gathers information of versions of nodes.  The second component is
    what the call printed. *)
Definition parseVSsInfo (mgmVersion : string) (nodeLSResponse : NodeLSResponse.t)
    : result (list VSInfo.t * list string) :=
  if negb (String.eqb (NodeLSResponse.ErrorMsg nodeLSResponse) "") then
    Err (ErrorString (NodeLSResponse.ErrorMsg nodeLSResponse))
  else
    parseVSsLoop mgmVersion [] [] (NodeLSResponse.Result nodeLSResponse).

(** The variables of [parseNSsInfo] that live across loop iterations.
    [nsinfo] and [nsactinfo] are declared before the loop and are only
    ever assigned inside it. *)
Record NSState : Type := mkNS {
  nsinfo : option NSInfo.t;
  nsactinfo : option NSActivityInfo.t;
  nsinfos : list NSInfo.t;
  nsactinfos : list NSActivityInfo.t
}.

(** [for k := range kv { if k != "uid" && k != "gid" { ...; nsinfo = &NSInfo{...} } }].
    The result of [strconv.ParseFloat] only feeds a [fmt.Sprintf] whose
    value is dropped, so it leaves no trace; every qualifying key assigns
    the same record, so the iteration order does not matter. *)
Definition nsRange (kv : gmap string string) (nsinfo0 : option NSInfo.t)
    : option NSInfo.t :=
  foldl (fun acc k =>
           if negb (String.eqb k "uid") && negb (String.eqb k "gid")
           then Some (nsInfoOf kv) else acc)
        nsinfo0 (map fst (map_to_list kv)).

(** The body of the loop of [parseNSsInfo] for a non-empty line whose
    mapping is [kv]. *)
Definition nsRow (kv : gmap string string) (st : NSState) : NSState :=
  let '(nsinfo', nsactinfo') :=
    if String.eqb (mapIndex kv "uid") "all" && String.eqb (mapIndex kv "gid") "all" then
      if mapHas kv "cmd" then
        if String.eqb (mapIndex kv "5s") "0.00" &&
           String.eqb (mapIndex kv "60s") "0.00" &&
           String.eqb (mapIndex kv "300s") "0.00" &&
           String.eqb (mapIndex kv "3600s") "0.00"
        then (nsinfo st, nsactinfo st)
        else (nsinfo st, Some (nsActivityInfoOf kv))
      else
        if Nat.leb (size kv) 3 then (nsRange kv (nsinfo st), nsactinfo st)
        else (nsinfo st, nsactinfo st)
    else (nsinfo st, nsactinfo st) in
  {| nsinfo := nsinfo';
     nsactinfo := nsactinfo';
     nsinfos := match nsinfo' with
                | Some i => nsinfos st ++ [i]
                | None => nsinfos st
                end;
     nsactinfos := match nsactinfo' with
                   | Some a => nsactinfos st ++ [a]
                   | None => nsactinfos st
                   end |}.

Fixpoint parseNSsLoop (st : NSState) (rawLines : list string) : result NSState :=
  match rawLines with
  | [] => Ok st
  | rl :: rest =>
    if String.eqb rl "" then parseNSsLoop st rest
    else
      kv ← getMap rl;
      parseNSsLoop (nsRow kv st) rest
  end.

(** Gathers information of the namespace. *)
Definition parseNSsInfo (raw : string)
    : result (list NSInfo.t * list NSActivityInfo.t) :=
  st ← parseNSsLoop (mkNS None None [] []) (Strings.Split raw newline);
  Ok (nsinfos st, nsactinfos st).

(** ** Vocabulary of the statements *)

(** [sep] occurs in [s] at byte offset [i]. *)
Definition occursAt (sep s : string) (i : nat) : Prop :=
  String.prefix sep (Utf8.drop i s) = true.

(** [strings.IndexByte(s, c) >= 0]. *)
Fixpoint hasByte (c : ascii) (s : string) : bool :=
  match s with
  | EmptyString => false
  | String d t => if Ascii.eqb d c then true else hasByte c t
  end.

(** The part of [s] before its first [c]; all of [s] when there is none. *)
Fixpoint before (c : ascii) (s : string) : string :=
  match s with
  | EmptyString => EmptyString
  | String d t => if Ascii.eqb d c then EmptyString else String d (before c t)
  end.

(** The part of [s] behind its first [c]; empty when there is none. *)
Fixpoint after (c : ascii) (s : string) : string :=
  match s with
  | EmptyString => EmptyString
  | String d t => if Ascii.eqb d c then t else after c t
  end.

(** What one token with a separator contributes to the map. *)
Definition itemKey (item : string) : string := before "=" item.
Definition itemValue (item : string) : string := before "=" (after "=" item).

(** A token is well formed when it holds a separator. *)
Definition wellFormed (item : string) : Prop := hasByte "=" item = true.

(** The bytes of a run of decoded runes. *)
Definition bytesOf (rs : list (Utf8.rune * string)) : string :=
  foldr (fun c acc => c.2 +:+ acc) "" rs.

(** The value of [lastQuote] after the closure has seen the runes [rs]. *)
Definition quoteAfter (lastQuote : Utf8.rune) (rs : list (Utf8.rune * string))
    : Utf8.rune :=
  foldl (fun st c => (f st c.1).2) lastQuote rs.

Definition isQuote (c : Utf8.rune * string) : bool :=
  Unicode.In_ c.1 Unicode.Quotation_Mark.
Definition notSpace (c : Utf8.rune * string) : bool :=
  negb (Unicode.IsSpace c.1).

(** The line of the specification's example, the map the tokenizer
    builds from it and the map the specification expects. *)
Definition exampleLine : string :=
  "hostport=abc.cern.ch:1095 status=" +:+ dquote +:+ "active now" +:+ dquote
  +:+ " nofs=12".

Definition exampleMap : gmap string string :=
  <["nofs" := "12"]>
    (<["status" := dquote +:+ "active now" +:+ dquote]>
       (<["hostport" := "abc.cern.ch:1095"]> ∅)).

Definition expectedMap : gmap string string :=
  <["nofs" := "12"]>
    (<["status" := "active now"]> (<["hostport" := "abc.cern.ch:1095"]> ∅)).

(** [field] of the projected record reads [key]: it is the mapping's value
    there, and empty when the key is missing. *)
Definition reads {R : Type} (proj : gmap string string -> R)
    (fk : (R -> string) * string) : Prop :=
  forall kv : gmap string string, fk.1 (proj kv) = default "" (kv !! fk.2).

Definition nodeFields : list ((NodeInfo.t -> string) * string) :=
  [ (NodeInfo.Hostport, "hostport");
    (NodeInfo.Status, "status");
    (NodeInfo.Nofs, "nofs");
    (NodeInfo.SumStatStatfsFree, "sum.stat.statfs.freebytes");
    (NodeInfo.SumStatStatfsUsed, "sum.stat.statfs.usedbytes");
    (NodeInfo.SumStatStatfsTotal, "sum.stat.statfs.capacity");
    (NodeInfo.SumStatStatFilesFree, "sum.stat.statfs.ffree");
    (NodeInfo.SumStatStatFilesUsed, "sum.stat.usedfiles");
    (NodeInfo.SumStatStatFilesTotal, "sum.stat.statfs.files");
    (NodeInfo.SumStatRopen, "sum.stat.ropen");
    (NodeInfo.SumStatWopen, "sum.stat.wopen");
    (NodeInfo.CfgStatSysThreads, "cfg.stat.sys.threads");
    (NodeInfo.SumStatNetInratemib, "sum.stat.net.inratemib");
    (NodeInfo.SumStatNetOutratemib, "sum.stat.net.outratemib") ].

Definition spaceFields : list ((SpaceInfo.t -> string) * string) :=
  [ (SpaceInfo.Type_, "type");
    (SpaceInfo.Name, "name");
    (SpaceInfo.CfgGroupSize, "cfg.groupsize");
    (SpaceInfo.CfgGroupMod, "cfg.groupmod");
    (SpaceInfo.Nofs, "nofs");
    (SpaceInfo.AvgStatDiskLoad, "avg.stat.disk.load");
    (SpaceInfo.SigStatDiskLoad, "sig.stat.disk.load");
    (SpaceInfo.SumStatDiskReadratemb, "sum.stat.disk.readratemb");
    (SpaceInfo.SumStatDiskWriteratemb, "sum.stat.disk.writeratemb");
    (SpaceInfo.SumStatNetEthratemib, "sum.stat.net.ethratemib");
    (SpaceInfo.SumStatNetInratemib, "sum.stat.net.inratemib");
    (SpaceInfo.SumStatNetOutratemib, "sum.stat.net.outratemib");
    (SpaceInfo.SumStatRopen, "sum.stat.ropen");
    (SpaceInfo.SumStatWopen, "sum.stat.wopen");
    (SpaceInfo.SumStatStatfsUsedbytes, "sum.stat.statfs.usedbytes");
    (SpaceInfo.SumStatStatfsFreebytes, "sum.stat.statfs.freebytes");
    (SpaceInfo.SumStatStatfsCapacity, "sum.stat.statfs.capacity");
    (SpaceInfo.SumStatUsedfiles, "sum.stat.usedfiles");
    (SpaceInfo.SumStatStatfsFfiles, "sum.stat.statfs.ffiles");
    (SpaceInfo.SumStatStatfsFiles, "sum.stat.statfs.files");
    (SpaceInfo.SumStatStatfsCapacityConfigstatusRw, "sum.stat.statfs.capacity?configstatus@rw");
    (SpaceInfo.SumNofsConfigstatusRw, "sum.<n>?configstatus@rw");
    (SpaceInfo.CfgQuota, "cfg.quota");
    (SpaceInfo.CfgNominalsize, "cfg.nominalsize");
    (SpaceInfo.CfgBalancer, "cfg.balancer");
    (SpaceInfo.CfgBalancerThreshold, "cfg.balancer.threshold");
    (SpaceInfo.SumStatBalancerRunning, "sum.stat.balancer.running");
    (SpaceInfo.SumStatDrainerRunning, "sum.stat.drainer.running");
    (SpaceInfo.SumStatDiskIopsConfigstatusRw, "sum.stat.disk.iops?configstatus@rw");
    (SpaceInfo.SumStatDiskBwConfigstatusRw, "sum.stat.disk.bw?configstatus@rw") ].

Definition groupFields : list ((GroupInfo.t -> string) * string) :=
  [ (GroupInfo.Name, "name");
    (GroupInfo.CfgStatus, "cfg.status");
    (GroupInfo.Nofs, "nofs");
    (GroupInfo.AvgStatDiskLoad, "avg.stat.disk.load");
    (GroupInfo.SigStatDiskLoad, "sig.stat.disk.load");
    (GroupInfo.SumStatDiskReadratemb, "sum.stat.disk.readratemb");
    (GroupInfo.SumStatDiskWriteratemb, "sum.stat.disk.writeratemb");
    (GroupInfo.SumStatNetEthratemib, "sum.stat.net.ethratemib");
    (GroupInfo.SumStatNetInratemib, "sum.stat.net.inratemib");
    (GroupInfo.SumStatNetOutratemib, "sum.stat.net.outratemib");
    (GroupInfo.SumStatRopen, "sum.stat.ropen");
    (GroupInfo.SumStatWopen, "sum.stat.wopen");
    (GroupInfo.SumStatStatfsUsedbytes, "sum.stat.statfs.usedbytes");
    (GroupInfo.SumStatStatfsFreebytes, "sum.stat.statfs.freebytes");
    (GroupInfo.SumStatStatfsCapacity, "sum.stat.statfs.capacity");
    (GroupInfo.SumStatUsedfiles, "sum.stat.usedfiles");
    (GroupInfo.SumStatStatfsFfree, "sum.stat.statfs.ffree");
    (GroupInfo.SumStatStatfsFiles, "sum.stat.statfs.files");
    (GroupInfo.DevStatStatfsFilled, "dev.stat.statfs.filled");
    (GroupInfo.AvgStatStatfsFilled, "avg.stat.statfs.filled");
    (GroupInfo.SigStatStatfsFilled, "sig.stat.statfs.filled");
    (GroupInfo.CfgStatBalancing, "cfg.stat.balancing");
    (GroupInfo.SumStatBalancerRunning, "sum.stat.balancer.running");
    (GroupInfo.SumStatDrainerRunning, "sum.stat.drainer.running") ].

Definition fsFields : list ((FSInfo.t -> string) * string) :=
  [ (FSInfo.Host, "host");
    (FSInfo.Port, "port");
    (FSInfo.Id, "id");
    (FSInfo.Uuid, "uuid");
    (FSInfo.Path, "path");
    (FSInfo.Schedgroup, "schedgroup");
    (FSInfo.StatBoot, "stat.boot");
    (FSInfo.Configstatus, "configstatus");
    (FSInfo.Headroom, "headroom");
    (FSInfo.StatErrc, "stat.errc");
    (FSInfo.StatErrmsg, "stat.errmsg");
    (FSInfo.StatDiskLoad, "stat.disk.load");
    (FSInfo.StatDiskReadratemb, "stat.disk.readratemb");
    (FSInfo.StatDiskWriteratemb, "stat.disk.writeratemb");
    (FSInfo.StatNetEthratemib, "stat.net.ethratemib");
    (FSInfo.StatNetInratemib, "stat.net.inratemib");
    (FSInfo.StatNetOutratemib, "stat.net.outratemib");
    (FSInfo.StatRopen, "stat.ropen");
    (FSInfo.StatWopen, "stat.wopen");
    (FSInfo.StatStatfsFreebytes, "stat.statfs.freebytes");
    (FSInfo.StatStatfsUsedbytes, "stat.statfs.usedbytes");
    (FSInfo.StatStatfsCapacity, "stat.statfs.capacity");
    (FSInfo.StatUsedfiles, "stat.usedfiles");
    (FSInfo.StatStatfsFfree, "stat.statfs.ffree");
    (FSInfo.StatStatfsFused, "stat.statfs.fused");
    (FSInfo.StatStatfsFiles, "stat.statfs.files");
    (FSInfo.Drainstatus, "drainstatus");
    (FSInfo.StatDrainprogress, "stat.drainprogress");
    (FSInfo.StatDrainfiles, "stat.drainfiles");
    (FSInfo.StatDrainbytesleft, "stat.drainbytesleft");
    (FSInfo.StatDrainretry, "stat.drainretry");
    (FSInfo.StatDrainFailed, "stat.drain.failed");
    (FSInfo.Graceperiod, "graceperiod");
    (FSInfo.StatTimeleft, "stat.timeleft");
    (FSInfo.StatActive, "stat.active");
    (FSInfo.StatBalancerRunning, "stat.balancer.running");
    (FSInfo.StatDrainerRunning, "stat.drainer.running");
    (FSInfo.StatDiskIops, "stat.disk.iops");
    (FSInfo.StatDiskBw, "stat.disk.bw");
    (FSInfo.StatGeotag, "stat.geotag");
    (FSInfo.StatHealth, "stat.health");
    (FSInfo.StatHealthRedundancyFactor, "stat.health.redundancy_factor");
    (FSInfo.StatHealthDrivesFailed, "stat.health.drives_failed");
    (FSInfo.StatHealthDrivesTotal, "stat.health.drives_total");
    (FSInfo.StatHealthIndicator, "stat.health.indicator") ].

Definition exampleGroupMap : gmap string string :=
  <["nofs" := "4"]> (<["cfg.status" := "on"]> (<["name" := "default"]> ∅)).

Definition exampleGroup : GroupInfo.t :=
  GroupInfo.mk "default" "on" "4" "" "" "" "" "" "" "" "" "" "" "" "" "" ""
    "" "" "" "" "" "" "".

(** A line the tokenizer accepts: each of its fields holds a [=]. *)
Definition lineOK (line : string) : Prop := Forall wellFormed (items line).

Definition exampleListing : string :=
  "hostport=a.cern.ch:1095 status=online" +:+ newline +:+ newline +:+
  "hostport=b.cern.ch:1095 status=offline" +:+ newline.

(** A node of the decoded JSON document, for the examples. *)
Definition exampleNode : NodeLS.t :=
  NodeLS.mk "fst1.cern.ch:1095"
    (Some (NodeLSCfg.mk (Stat.mk "site::rack1"
       (Sys.mk "1700000000" "5.1.22" "5.14.0" 1024 7 300
               "%2014:02:11%20up%2010%20days,%20%203:02" 2048 "5.5.5")))).

(** The same node with an uptime that holds no marker. *)
Definition exampleNodeUnknown : NodeLS.t :=
  NodeLS.mk "fst2.cern.ch:1095"
    (Some (NodeLSCfg.mk (Stat.mk "site::rack1"
       (Sys.mk "1700000000" "5.1.22" "5.14.0" 1024 7 300
               "unknown" 2048 "5.5.5")))).

(** A node the version projector can handle: not nil, with a
    configuration and a [:] in its hostport. *)
Definition goodNode (node : option NodeLS.t) : Prop :=
  exists n cfg, node = Some n /\ NodeLS.Cfg n = Some cfg /\
                hasByte ":" (NodeLS.HostPort n) = true.

(** The type assertion of [execute]: is the error an [ExitError]? *)
Definition isExitError (e : error) : bool :=
  match e with
  | ExitError _ => true
  | _ => false
  end.

(** Rows of [eos ns stat -a -m] for the examples, and the text made of
    such rows, one per line. *)
Definition nsRaw (rows : list string) : string :=
  foldr (fun row acc => row +:+ newline +:+ acc) "" rows.

Definition rowOpen : string :=
  "uid=all gid=all cmd=Open total=5 5s=1.00 60s=0.00 300s=0.00 3600s=0.00".
Definition rowClose : string :=
  "uid=all gid=all cmd=Close total=0 5s=0.00 60s=0.00 300s=0.00 3600s=0.00".
Definition rowUser : string :=
  "uid=root gid=root cmd=Open total=5 5s=1.00 60s=0.00 300s=0.00 3600s=0.00".
Definition rowFiles : string := "uid=all gid=all ns.total.files=10".
Definition rowBoot : string :=
  "uid=all gid=all ns.boot.status=booted ns.boot.time=12".

Definition recOpen : NSActivityInfo.t :=
  NSActivityInfo.mk "all" "all" "Open" "5" "1.00" "0.00" "0.00" "0.00"
    "" "" "" "".

Definition recFiles : NSInfo.t :=
  nsInfoOf (<["ns.total.files" := "10"]> ∅).

(** The rows for which the loop body assigns [nsactinfo]. *)
Definition activityRow (kv : gmap string string) : bool :=
  String.eqb (mapIndex kv "uid") "all" && String.eqb (mapIndex kv "gid") "all"
  && mapHas kv "cmd"
  && negb (String.eqb (mapIndex kv "5s") "0.00" &&
           String.eqb (mapIndex kv "60s") "0.00" &&
           String.eqb (mapIndex kv "300s") "0.00" &&
           String.eqb (mapIndex kv "3600s") "0.00").

(** All bytes of [s] are ASCII. *)
Fixpoint asciiOnly (s : string) : bool :=
  match s with
  | EmptyString => true
  | String c t => (Utf8.byteN c <? 0x80)%N && asciiOnly t
  end.

(** The rows for which the loop body may assign [nsinfo]. *)
Definition recordRow (kv : gmap string string) : bool :=
  String.eqb (mapIndex kv "uid") "all" && String.eqb (mapIndex kv "gid") "all"
  && negb (mapHas kv "cmd") && Nat.leb (size kv) 3.

(** The outcome [r] of a parser on the text [raw] is decided by the
    lines of [raw]: a value when the tokenizer accepts them all, the
    panic of the tokenizer otherwise, never an error. *)
Definition decidedByLines {A : Type} (r : result A) (raw : string) : Prop :=
  ((exists a, r = Ok a) <-> Forall lineOK (Strings.Split raw newline)) /\
  (r = Panic (IndexOutOfRange 1 1) <-> ~ Forall lineOK (Strings.Split raw newline)) /\
  (forall e, r <> Err e).

(** The key/value pairs of a record, by the table of its projector, and
    the mapping that holds them. *)
Definition fieldsList {R : Type} (table : list ((R -> string) * string))
    (r : R) : list (string * string) :=
  map (fun fk => (fk.2, fk.1 r)) table.

Definition fieldsMap {R : Type} (table : list ((R -> string) * string))
    (r : R) : gmap string string :=
  list_to_map (fieldsList table r).

(** A byte that is ASCII, neither white space nor a quotation mark. *)
Definition solidByte (c : ascii) : bool :=
  (Utf8.byteN c <? 0x80)%N && negb (Unicode.IsSpace (Utf8.byteN c))
  && negb (Unicode.In_ (Utf8.byteN c) Unicode.Quotation_Mark).

Fixpoint solid (s : string) : bool :=
  match s with
  | EmptyString => true
  | String c t => solidByte c && solid t
  end.

(** Text that can stand as a key or a value of a monitoring line as it
    is: solid and without [=]. *)
Definition plain (s : string) : bool := solid s && negb (hasByte "=" s).

(** The monitoring line of a list of pairs. *)
Definition serialize (kvs : list (string * string)) : string :=
  String.concat " " (map (fun kv => kv.1 +:+ "=" +:+ kv.2) kvs).

(** ** package eosclient: the client and its calls

    What the calls need from outside is a parameter: the lookup of a
    user, the run of a subprocess (a step of an abstract world), the JSON
    decoder, and what [Options.init] asks the system for.  Deadlines and
    the optional logging of the command line are not modelled. *)

Module Client.

(** The two fields of [os/user.User] that are read. *)
Record User : Type := mkUser { Uid : string; Gid : string }.

(** The exit-status classification of [execute], defined above on the
    outcome of the run. *)
Local Abbreviation classify := execute.

(** The fields of [exec.Cmd] that are set. *)
Record Cmd : Type := mkCmd {
  Path : string;
  Args : list string;
  Env : list string
}.

(** [exec.CommandContext(ctx, name, arg...)]. *)
Definition Command (name : string) (arg : list string) : Cmd :=
  mkCmd name (name :: arg) [].

(** The loop of [getEosMGMVersion] over the lines of the output. *)
Fixpoint findVersion (stdo_mgm : list string) : result string :=
  match stdo_mgm with
  | [] => Err (ErrorString "version not found")
  | l :: rest =>
    if String.prefix "EOS_SERVER_VERSION=" l then
      let s := Strings.Split l " " in
      s0 ← index s 0;
      index (Strings.Split s0 "EOS_SERVER_VERSION=") 1
    else findVersion rest
  end.

Section World.
Variable ZapLogger : Type.

Record Options : Type := mkOptions {
  EosBinary : string;
  XrdcopyBinary : string;
  URL : string;
  CacheDirectory : string;
  EnableLogging : bool;
  Logger : option ZapLogger
}.

(** [os.TempDir()] and the logger of [zap.NewProduction()], nil when it
    fails. *)
Variable TempDir : string.
Variable NewProduction : option ZapLogger.

Definition init (opt : Options) : Options :=
  {| EosBinary := if String.eqb (EosBinary opt) "" then "/usr/bin/eos"
                  else EosBinary opt;
     XrdcopyBinary := if String.eqb (XrdcopyBinary opt) "" then "/usr/bin/xrdcopy"
                      else XrdcopyBinary opt;
     URL := if String.eqb (URL opt) "" then "root://eos-example.org" else URL opt;
     CacheDirectory := if String.eqb (CacheDirectory opt) "" then TempDir
                       else CacheDirectory opt;
     EnableLogging := EnableLogging opt;
     Logger := match Logger opt with
               | None => NewProduction
               | Some l => Some l
               end |}.

(** The client. *)
Record t : Type := mk { opt : Options }.

Definition New (o : Options) : result t := Ok (mk (init o)).

Variable World : Type.
(** [cmd.Run()]. *)
Variable spawn : World -> Cmd -> RunOutcome * World.
(** [osuser.Lookup]. *)
Variable Lookup : string -> result User.
(** [json.Unmarshal] into a [NodeLSResponse]. *)
Variable Unmarshal : string -> result NodeLSResponse.t.

Definition getUnixUser (username : string) : result User := Lookup username.

(** [execute]: set the environment, run, classify the exit status. *)
Definition execute (c : t) (cmd : Cmd) (w : World)
    : (string * string * option error) * World :=
  let cmd' := mkCmd (Path cmd) (Args cmd) ["EOS_MGM_URL=" +:+ URL (opt c)] in
  let '(run, w') := spawn w cmd' in
  (classify run, w').

(** The body shared by [ListNode], [ListSpace], [ListGroup] and
    [ListFS]: they differ in the subcommand and in the parser. *)
Definition listAs {A : Type} (c : t) (username : string) (what : string)
    (parse : string -> result (list A)) (w : World)
    : result (list A) * World :=
  match getUnixUser username with
  | Ok unixUser =>
    let '((stdout, _, err), w') :=
      execute c (Command "/usr/bin/eos"
                   ["-r"; Uid unixUser; Gid unixUser; what; "ls"; "-m"]) w in
    match err with
    | Some e => (Err e, w')
    | None => (parse stdout, w')
    end
  | Err e => (Err e, w)
  | Panic p => (Panic p, w)
  end.

Definition ListNode (c : t) (username : string) :=
  listAs c username "node" parseNodesInfo.
Definition ListSpace (c : t) (username : string) :=
  listAs c username "space" parseSpacesInfo.
Definition ListGroup (c : t) (username : string) :=
  listAs c username "group" parseGroupsInfo.
Definition ListFS (c : t) (username : string) :=
  listAs c username "fs" parseFSsInfo.

Definition getEosMGMVersion (c : t) (w : World) : result string * World :=
  let '((out, _, err), w') := execute c (Command "/usr/bin/eos" ["version"]) w in
  match err with
  | Some e => (Err e, w')
  | None => (findVersion (Strings.Split out newline), w')
  end.

Definition ListVS (c : t) (w : World)
    : result (list VSInfo.t * list string) * World :=
  match getEosMGMVersion c w with
  | (Ok mgmVersion, w1) =>
    let '((stdout, _, err), w2) :=
      execute c (Command "/usr/bin/eos" ["--json"; "node"; "ls"]) w1 in
    match err with
    | Some e => (Err e, w2)
    | None =>
      match Unmarshal stdout with
      | Ok nodeLSResponse => (parseVSsInfo mgmVersion nodeLSResponse, w2)
      | Err e => (Err e, w2)
      | Panic p => (Panic p, w2)
      end
    end
  | (Err e, w1) => (Err e, w1)
  | (Panic p, w1) => (Panic p, w1)
  end.

Definition ListNS (c : t) (w : World)
    : result (list NSInfo.t * list NSActivityInfo.t) * World :=
  let '((stdout, _, err), w') :=
    execute c (Command "/usr/bin/eos" ["ns"; "stat"; "-a"; "-m"]) w in
  match err with
  | Some e => (Err e, w')
  | None => (parseNSsInfo stdout, w')
  end.

End World.
End Client.

(** The command line of an identity-bound listing, as [execute] runs it. *)
Definition listCmd (url : string) (u : Client.User) (what : string) : Client.Cmd :=
  Client.mkCmd "/usr/bin/eos"
    ["/usr/bin/eos"; "-r"; Client.Uid u; Client.Gid u; what; "ls"; "-m"]
    ["EOS_MGM_URL=" +:+ url].

(** The command line of a call without identity. *)
Definition plainCmd (url : string) (arg : list string) : Client.Cmd :=
  Client.mkCmd "/usr/bin/eos" ("/usr/bin/eos" :: arg) ["EOS_MGM_URL=" +:+ url].

(** A listing fails closed: an unknown user ends the call before any
    subprocess is run, and after a failed run the call returns an error,
    whatever the process printed. *)
Definition failsClosed {World A : Type}
    (spawn : World -> Client.Cmd -> RunOutcome * World)
    (Lookup : string -> result Client.User)
    (url what : string)
    (lister : string -> World -> result (list A) * World) : Prop :=
  (forall username w e,
     Lookup username = Err e -> lister username w = (Err e, w)) /\
  (forall username w u e,
     Lookup username = Ok u ->
     runErr (spawn w (listCmd url u what)).1 = Some e ->
     exists e',
       lister username w = (Err e', (spawn w (listCmd url u what)).2)).

(** A world for the examples: it records the commands run; every run
    fails with exit status 1 after printing text no parser accepts. *)
Definition failingSpawn (w : list Client.Cmd) (cmd : Client.Cmd)
    : RunOutcome * list Client.Cmd :=
  (mkRun "garbage" "boom" (Some (ExitError (Some 1%Z))), (w ++ [cmd])%list).

(** A user database with the single user root. *)
Definition rootOnly (username : string) : result Client.User :=
  if String.eqb username "root" then Ok (Client.mkUser "0" "0")
  else Err (ErrorString "user: unknown user").

Definition exampleClient (bin : string) : Client.t unit :=
  Client.mk unit (Client.mkOptions unit bin "" "root://eos.example" "" false None).

(** The statistic each field of a namespace record is read from. *)
Definition nsFields : list ((NSInfo.t -> string) * string) :=
  [ (NSInfo.Boot_file_time, "ns.boot.file.time");
    (NSInfo.Boot_status, "ns.boot.status");
    (NSInfo.Boot_time, "ns.boot.time");
    (NSInfo.Cache_container_maxsize, "ns.cache.containers.maxsize");
    (NSInfo.Cache_container_occupancy, "ns.cache.containers.occupancy");
    (NSInfo.Cache_files_maxsize, "ns.cache.files.maxsize");
    (NSInfo.Cache_files_occupancy, "ns.cache.files.occupancy");
    (NSInfo.Fds_all, "ns.fds.all");
    (NSInfo.Fusex_activeclients, "ns.fusex.activeclients");
    (NSInfo.Fusex_caps, "ns.fusex.caps");
    (NSInfo.Fusex_clients, "ns.fusex.clients");
    (NSInfo.Fusex_lockedclients, "ns.fusex.lockedclients");
    (NSInfo.Latency_dirs, "ns.latency.dirs");
    (NSInfo.Latency_files, "ns.latency.files");
    (NSInfo.Latency_pending_updates, "ns.latency.pending.updates");
    (NSInfo.Latencypeak_eosviewmutex_1min, "ns.latencypeak.eosviewmutex.1min");
    (NSInfo.Latencypeak_eosviewmutex_2min, "ns.latencypeak.eosviewmutex.2min");
    (NSInfo.Latencypeak_eosviewmutex_5min, "ns.latencypeak.eosviewmutex.5min");
    (NSInfo.Latencypeak_eosviewmutex_last, "ns.latencypeak.eosviewmutex.last");
    (NSInfo.Memory_growth, "ns.memory.growth");
    (NSInfo.Memory_resident, "ns.memory.resident");
    (NSInfo.Memory_share, "ns.memory.share");
    (NSInfo.Memory_virtual, "ns.memory.virtual");
    (NSInfo.Stat_threads, "ns.stat.threads");
    (NSInfo.Total_directories, "ns.total.directories");
    (NSInfo.Total_directories_changelog_avg_entry_size, "ns.total.directories.changelog.avg_entry_size");
    (NSInfo.Total_directories_changelog_size, "ns.total.directories.changelog.size");
    (NSInfo.Total_files, "ns.total.files");
    (NSInfo.Total_files_changelog_avg_entry_size, "ns.total.files.changelog.avg_entry_size");
    (NSInfo.Total_files_changelog_size, "ns.total.files.changelog.size");
    (NSInfo.Uptime, "ns.uptime") ].

(** * package collector

    The group collector of the exporter.  The gauge vectors belong to
    the metrics library, which is not modelled: a run is described by
    the calls it makes on the vectors, in program order. *)

Module Collector.

(** The fields of [GroupCollector] that [NewGroupCollector] sets (the
    field [Name] stays nil and is never used). *)
Inductive Gauge : Type :=
| CfgStatus
| Nofs
| AvgStatDiskLoad
| SigStatDiskLoad
| SumStatDiskReadratemb
| SumStatDiskWriteratemb
| SumStatNetEthratemib
| SumStatNetInratemib
| SumStatNetOutratemib
| SumStatRopen
| SumStatWopen
| SumStatStatfsUsedbytes
| SumStatStatfsFreebytes
| SumStatStatfsCapacity
| SumStatUsedfiles
| SumStatStatfsFfree
| SumStatStatfsFiles
| DevStatStatfsFilled
| AvgStatStatfsFilled
| SigStatStatfsFilled
| CfgStatBalancing
| SumStatBalancerRunning
| SumStatDrainerRunning.

#[global] Instance Gauge_eq_dec : EqDecision Gauge.
Proof. solve_decision. Defined.

(** [prometheus.NewGaugeVec(prometheus.GaugeOpts{...}, labelNames)]. *)
Record GaugeVec : Type := NewGaugeVec {
  Namespace : string;
  Name : string;
  Help : string;
  ConstLabels : gmap string string;
  labelNames : list string
}.

(** [NewGroupCollector]: the struct, as a function of its fields. *)
Definition NewGroupCollector (cluster : string) (field : Gauge) : GaugeVec :=
  let labels : gmap string string := <["cluster" := cluster]> ∅ in
  let namespace := "eos" in
  match field with
  | CfgStatus =>
    NewGaugeVec "eos" "group_cfg_status"
      "Group Status 0=off, 1=on"
      labels ["group"]
  | Nofs =>
    NewGaugeVec "eos" "group_nofs"
      "Number of filesystems in the group"
      labels ["group"]
  | AvgStatDiskLoad =>
    NewGaugeVec "eos" "group_avg_stat_disk_load"
      "Group Avg Stat disk load"
      labels ["group"]
  | SigStatDiskLoad =>
    NewGaugeVec "eos" "group_sig_stat_disk_load"
      "Group Sig Stat disk load"
      labels ["group"]
  | SumStatDiskReadratemb =>
    NewGaugeVec "eos" "group_sum_stat_disk_readratemb"
      "Group Sum Stat Disk Read Rate in MB/s"
      labels ["group"]
  | SumStatDiskWriteratemb =>
    NewGaugeVec "eos" "group_sum_stat_disk_writeratemb"
      "Group Sum Stat Disk Write Rate in MB/s"
      labels ["group"]
  | SumStatNetEthratemib =>
    NewGaugeVec "eos" "group_stat_net_ethratemib"
      "Group Stat Net Eth Rate in MiB/s"
      labels ["group"]
  | SumStatNetInratemib =>
    NewGaugeVec "eos" "group_stat_net_inratemib"
      "Group Stat Net In Rate MiB/s"
      labels ["group"]
  | SumStatNetOutratemib =>
    NewGaugeVec "eos" "group_stat_net_outratemib"
      "Group Stat Net Out Rate MiB/s"
      labels ["group"]
  | SumStatRopen =>
    NewGaugeVec "eos" "group_sum_stat_ropen"
      "Group Open reads"
      labels ["group"]
  | SumStatWopen =>
    NewGaugeVec "eos" "group_sum_stat_wopen"
      "Group Open writes"
      labels ["group"]
  | SumStatStatfsUsedbytes =>
    NewGaugeVec "eos" "group_stat_statfs_usedbytes"
      "Group StatFs Used Bytes"
      labels ["group"]
  | SumStatStatfsFreebytes =>
    NewGaugeVec "eos" "group_stat_statfs_freebytes"
      "Group StatFs Free Bytes"
      labels ["group"]
  | SumStatStatfsCapacity =>
    NewGaugeVec "eos" "group_stat_statfs_capacity_bytes"
      "Group StatFs Capacity"
      labels ["group"]
  | SumStatUsedfiles =>
    NewGaugeVec "eos" "group_stat_used_files"
      "Group Used Files"
      labels ["group"]
  | SumStatStatfsFfree =>
    NewGaugeVec "eos" "group_stat_stafs_ffree"
      "Group Free-Files"
      labels ["group"]
  | SumStatStatfsFiles =>
    NewGaugeVec "eos" "group_stat_stafs_files"
      "Group Files"
      labels ["group"]
  | DevStatStatfsFilled =>
    NewGaugeVec "eos" "group_stat_statfs_dev_filled"
      "Group Dev Filled"
      labels ["group"]
  | AvgStatStatfsFilled =>
    NewGaugeVec "eos" "group_stat_statfs_avg_filled"
      "Group Avg Filled"
      labels ["group"]
  | SigStatStatfsFilled =>
    NewGaugeVec "eos" "group_stat_statfs_sig_filled"
      "Group Sig Filled"
      labels ["group"]
  | CfgStatBalancing =>
    NewGaugeVec namespace "group_stat_balancing"
      "Status of group balancing 0=idle, 1=balancing, 2=drainwait"
      labels ["group"]
  | SumStatBalancerRunning =>
    NewGaugeVec namespace "group_sum_stat_balancer_running"
      "Group Stat Balancer Running"
      labels ["group"]
  | SumStatDrainerRunning =>
    NewGaugeVec namespace "group_sum_stat_drainer_running"
      "Group Stat Drainer Running"
      labels ["group"]
  end.

Definition collectorList : list Gauge :=
  [ CfgStatus;
    Nofs;
    AvgStatDiskLoad;
    SigStatDiskLoad;
    SumStatDiskReadratemb;
    SumStatDiskWriteratemb;
    SumStatNetEthratemib;
    SumStatNetInratemib;
    SumStatNetOutratemib;
    SumStatRopen;
    SumStatWopen;
    SumStatStatfsUsedbytes;
    SumStatStatfsFreebytes;
    SumStatStatfsCapacity;
    SumStatUsedfiles;
    SumStatStatfsFfree;
    SumStatStatfsFiles;
    DevStatStatfsFilled;
    AvgStatStatfsFilled;
    SigStatStatfsFilled;
    CfgStatBalancing;
    SumStatBalancerRunning;
    SumStatDrainerRunning ].

(** What a call that panics was given: an error value ([panic(err)]) or
    a run-time panic. *)
Inductive PanicValue : Type :=
| PanicError (e : error)
| PanicRuntime (p : panic).

Inductive Outcome (A : Type) : Type :=
| Returns (a : A)
| Panics (v : PanicValue).
Arguments Returns {A} a.
Arguments Panics {A} v.

Section Metrics.
(** [float64], [strconv.ParseFloat(s, 64)] (the value when [err == nil])
    and the conversion [float64(i)] of an [int]. *)
Variable float64 : Type.
Variable ParseFloat : string -> option float64.
Variable ofInt : Z -> float64.

(** One call [o.<vec>.WithLabelValues(lvs...).Set(value)]. *)
Record SetCall : Type := mkSet {
  vec : Gauge;
  lvs : list string;
  value : float64
}.

(** [v, err := strconv.ParseFloat(field, 64); if err == nil { o.g.WithLabelValues(m.Name).Set(v) }]. *)
Definition setParsed (g : Gauge) (m : GroupInfo.t) (field : string)
    : list SetCall :=
  match ParseFloat field with
  | Some v => [mkSet g [GroupInfo.Name m] v]
  | None => []
  end.

(** The body of the loop of [collectGroupDF]. *)
Definition collectGroup (m : GroupInfo.t) : list SetCall :=
  let cfgstatus := if String.eqb (GroupInfo.CfgStatus m) "on" then 1%Z else 0%Z in
  let balancer_status :=
    if String.eqb (GroupInfo.CfgStatBalancing m) "idle" then 0%Z
    else if String.eqb (GroupInfo.CfgStatBalancing m) "balancing" then 1%Z
    else if String.eqb (GroupInfo.CfgStatBalancing m) "drainwait" then 2%Z
    else 0%Z in
  ([mkSet CfgStatus [GroupInfo.Name m] (ofInt cfgstatus)]
   ++ setParsed Nofs m (GroupInfo.Nofs m)
   ++ setParsed AvgStatDiskLoad m (GroupInfo.AvgStatDiskLoad m)
   ++ setParsed SigStatDiskLoad m (GroupInfo.SigStatDiskLoad m)
   ++ setParsed SumStatDiskReadratemb m (GroupInfo.SumStatDiskReadratemb m)
   ++ setParsed SumStatDiskWriteratemb m (GroupInfo.SumStatDiskWriteratemb m)
   ++ setParsed SumStatNetEthratemib m (GroupInfo.SumStatNetEthratemib m)
   ++ setParsed SumStatNetInratemib m (GroupInfo.SumStatNetInratemib m)
   ++ setParsed SumStatNetOutratemib m (GroupInfo.SumStatNetOutratemib m)
   ++ setParsed SumStatRopen m (GroupInfo.SumStatRopen m)
   ++ setParsed SumStatWopen m (GroupInfo.SumStatWopen m)
   ++ setParsed SumStatStatfsUsedbytes m (GroupInfo.SumStatStatfsUsedbytes m)
   ++ setParsed SumStatStatfsFreebytes m (GroupInfo.SumStatStatfsFreebytes m)
   ++ setParsed SumStatStatfsCapacity m (GroupInfo.SumStatStatfsCapacity m)
   ++ setParsed SumStatUsedfiles m (GroupInfo.SumStatUsedfiles m)
   ++ setParsed SumStatStatfsFfree m (GroupInfo.SumStatStatfsFfree m)
   ++ setParsed SumStatStatfsFiles m (GroupInfo.SumStatStatfsFiles m)
   ++ setParsed DevStatStatfsFilled m (GroupInfo.DevStatStatfsFilled m)
   ++ setParsed AvgStatStatfsFilled m (GroupInfo.AvgStatStatfsFilled m)
   ++ setParsed SigStatStatfsFilled m (GroupInfo.SigStatStatfsFilled m)
   ++ [mkSet CfgStatBalancing [GroupInfo.Name m] (ofInt balancer_status)]
   ++ setParsed SumStatBalancerRunning m (GroupInfo.SumStatBalancerRunning m)
   ++ setParsed SumStatDrainerRunning m (GroupInfo.SumStatDrainerRunning m))%list.

Variable ZapLogger : Type.
Variable TempDir : string.
Variable NewProduction : option ZapLogger.
Variable World : Type.
Variable spawn : World -> Client.Cmd -> RunOutcome * World.
Variable Lookup : string -> result Client.User.

(** [collectGroupDF]: the returned error or the panic, the calls made
    on the gauge vectors, and the world after the call. *)
Definition collectGroupDF (w : World)
    : Outcome (option error) * list SetCall * World :=
  let opt := Client.mkOptions ZapLogger "" "" "root://eospps.cern.ch" "" false None in
  match Client.New ZapLogger TempDir NewProduction opt with
  | Err e => (Panics (PanicError e), [], w)
  | Panic p => (Panics (PanicRuntime p), [], w)
  | Ok client =>
    match Client.ListGroup ZapLogger World spawn Lookup client "root" w with
    | (Err e, w') => (Panics (PanicError e), [], w')
    | (Panic p, w') => (Panics (PanicRuntime p), [], w')
    | (Ok mds, w') => (Returns None, concat (map collectGroup mds), w')
    end
  end.

(** [Describe]: the vectors whose descriptors are sent. *)
Definition Describe : list Gauge := collectorList.

(** [Collect]: the error it logs, if any, and the vectors it sends to
    the channel; the calls made on the gauge vectors; the world after
    the call. *)
Definition Collect (w : World)
    : Outcome (option error * list Gauge) * list SetCall * World :=
  match collectGroupDF w with
  | (Returns err, sets, w') => (Returns (err, collectorList), sets, w')
  | (Panics v, sets, w') => (Panics v, sets, w')
  end.

End Metrics.
End Collector.

(** The listing key each parsed gauge is fed from, with the name of the
    metric. *)
Definition gaugeKeys : list (Collector.Gauge * string * string) :=
  [ (Collector.Nofs, "group_nofs", "nofs");
    (Collector.AvgStatDiskLoad, "group_avg_stat_disk_load", "avg.stat.disk.load");
    (Collector.SigStatDiskLoad, "group_sig_stat_disk_load", "sig.stat.disk.load");
    (Collector.SumStatDiskReadratemb, "group_sum_stat_disk_readratemb", "sum.stat.disk.readratemb");
    (Collector.SumStatDiskWriteratemb, "group_sum_stat_disk_writeratemb", "sum.stat.disk.writeratemb");
    (Collector.SumStatNetEthratemib, "group_stat_net_ethratemib", "sum.stat.net.ethratemib");
    (Collector.SumStatNetInratemib, "group_stat_net_inratemib", "sum.stat.net.inratemib");
    (Collector.SumStatNetOutratemib, "group_stat_net_outratemib", "sum.stat.net.outratemib");
    (Collector.SumStatRopen, "group_sum_stat_ropen", "sum.stat.ropen");
    (Collector.SumStatWopen, "group_sum_stat_wopen", "sum.stat.wopen");
    (Collector.SumStatStatfsUsedbytes, "group_stat_statfs_usedbytes", "sum.stat.statfs.usedbytes");
    (Collector.SumStatStatfsFreebytes, "group_stat_statfs_freebytes", "sum.stat.statfs.freebytes");
    (Collector.SumStatStatfsCapacity, "group_stat_statfs_capacity_bytes", "sum.stat.statfs.capacity");
    (Collector.SumStatUsedfiles, "group_stat_used_files", "sum.stat.usedfiles");
    (Collector.SumStatStatfsFfree, "group_stat_stafs_ffree", "sum.stat.statfs.ffree");
    (Collector.SumStatStatfsFiles, "group_stat_stafs_files", "sum.stat.statfs.files");
    (Collector.DevStatStatfsFilled, "group_stat_statfs_dev_filled", "dev.stat.statfs.filled");
    (Collector.AvgStatStatfsFilled, "group_stat_statfs_avg_filled", "avg.stat.statfs.filled");
    (Collector.SigStatStatfsFilled, "group_stat_statfs_sig_filled", "sig.stat.statfs.filled");
    (Collector.SumStatBalancerRunning, "group_sum_stat_balancer_running", "sum.stat.balancer.running");
    (Collector.SumStatDrainerRunning, "group_sum_stat_drainer_running", "sum.stat.drainer.running") ].

(** The command the group collector runs for the user [u]. *)
Definition groupCmd (u : Client.User) : Client.Cmd :=
  listCmd "root://eospps.cern.ch" u "group".

(** A number parser for the examples: the decimal digits of a natural
    number, read as an integer. *)
Definition parseNat (s : string) : option Z :=
  (fun u => Z.of_nat (Nat.of_uint u)) <$> NilZero.uint_of_string s.

(** A world for the examples: every run prints two group lines. *)
Definition groupSpawn (w : list Client.Cmd) (cmd : Client.Cmd)
    : RunOutcome * list Client.Cmd :=
  (mkRun ("name=default.0 cfg.status=on nofs=12 cfg.stat.balancing=drainwait" +:+ newline +:+
          "name=default.1 cfg.status=off nofs=n/a" +:+ newline)
         "" None, (w ++ [cmd])%list).

(** * Facts about strings *)

Local Arguments String.append : simpl nomatch.

Section StringFacts.
Import Utf8 Strings.

Lemma length_app (s t : string) :
  String.length (s +:+ t) = String.length s + String.length t.
Proof. induction s as [|c s IH]; simpl; [reflexivity | now rewrite IH]. Qed.

Lemma app_assoc_s (a b c : string) : (a +:+ b) +:+ c = a +:+ (b +:+ c).
Proof. induction a as [|x a IH]; simpl; [reflexivity | now rewrite IH]. Qed.

Lemma app_nil_r_s (s : string) : s +:+ "" = s.
Proof. induction s as [|c s IH]; simpl; [reflexivity | now rewrite IH]. Qed.

Lemma take_drop (n : nat) (s : string) : take n s +:+ drop n s = s.
Proof.
  revert s; induction n as [|n IH]; intros [|c s]; simpl; try reflexivity.
  now rewrite IH.
Qed.

Lemma take_app_length (a b : string) : take (String.length a) (a +:+ b) = a.
Proof.
  induction a as [|c a IH]; simpl; [now destruct b | now rewrite IH].
Qed.

Lemma drop_app_length (a b : string) : drop (String.length a) (a +:+ b) = b.
Proof. induction a as [|c a IH]; simpl; [now destruct b | exact IH]. Qed.

Lemma drop_add (n m : nat) (s : string) : drop (n + m) s = drop m (drop n s).
Proof.
  revert s; induction n as [|n IH]; intros s; simpl; [reflexivity|].
  destruct s as [|c s]; simpl; [now destruct m | apply IH].
Qed.

Lemma drop_app_le (i : nat) (a b : string) :
  i <= String.length a -> drop i (a +:+ b) = drop i a +:+ b.
Proof.
  revert a; induction i as [|i IH]; intros a Hi; simpl.
  - now destruct a, b.
  - destruct a as [|c a]; simpl in *; [lia | apply IH; lia].
Qed.

Lemma length_drop (n : nat) (s : string) :
  String.length (drop n s) = String.length s - n.
Proof.
  revert s; induction n as [|n IH]; intros [|c s]; simpl; try reflexivity.
  apply IH.
Qed.

Lemma prefix_spec (p s : string) :
  String.prefix p s = true <-> exists t, s = p +:+ t.
Proof.
  revert s; induction p as [|c p IH]; intros s.
  - destruct s; simpl; (split; [intros _; eexists; reflexivity | reflexivity]).
  - destruct s as [|d s]; simpl.
    + split; [discriminate | intros [t Ht]; discriminate].
    + destruct (ascii_dec c d) as [->|Hne].
      * rewrite IH. split; intros [t Ht]; exists t; congruence.
      * split; [discriminate | intros [t Ht]; congruence].
Qed.

Lemma prefix_length (p s : string) :
  String.prefix p s = true -> String.length p <= String.length s.
Proof.
  intros [t ->]%prefix_spec. rewrite length_app. lia.
Qed.

(** An occurrence that fits inside [a] does not depend on what follows. *)
Lemma prefix_drop_app (sep a b : string) (i : nat) :
  i + String.length sep <= String.length a ->
  String.prefix sep (drop i (a +:+ b)) = String.prefix sep (drop i a).
Proof.
  intros Hi. rewrite drop_app_le by lia.
  assert (Hl : String.length sep <= String.length (drop i a))
    by (rewrite length_drop; lia).
  generalize dependent (drop i a). clear.
  induction sep as [|c sep IH]; intros s Hl; simpl.
  - now destruct s, b.
  - destruct s as [|d s]; simpl in *; [lia|].
    destruct (ascii_dec c d); [apply IH; lia | reflexivity].
Qed.

Lemma drop_0 (s : string) : drop 0 s = s.
Proof. now destruct s. Qed.

Lemma drop_nil (n : nat) : drop n "" = "".
Proof. now destruct n. Qed.

Lemma Index_nil (sep : string) :
  Index "" sep = if String.prefix sep "" then Some 0 else None.
Proof. reflexivity. Qed.

Lemma Index_cons (c : ascii) (s sep : string) :
  Index (String c s) sep =
  if String.prefix sep (String c s) then Some 0 else S <$> Index s sep.
Proof. reflexivity. Qed.

Lemma Index_occurs (s sep : string) (m : nat) :
  Index s sep = Some m ->
  occursAt sep s m /\ forall i, i < m -> ~ occursAt sep s i.
Proof.
  unfold occursAt. revert m; induction s as [|c s IH]; intros m.
  - rewrite Index_nil. destruct (String.prefix sep "") eqn:E; [|done].
    intros [= <-]. split; [exact E | intros i Hi; lia].
  - rewrite Index_cons. destruct (String.prefix sep (String c s)) eqn:E.
    + intros [= <-]. split; [exact E | intros i Hi; lia].
    + destruct (Index s sep) as [k|] eqn:Ek; [|done].
      intros [= <-]. destruct (IH k eq_refl) as [H1 H2].
      split; [exact H1|].
      intros [|i] Hi; [rewrite drop_0; congruence | apply H2; lia].
Qed.

Lemma Index_none (s sep : string) :
  Index s sep = None <-> forall i, ~ occursAt sep s i.
Proof.
  unfold occursAt. induction s as [|c s IH].
  - rewrite Index_nil. destruct (String.prefix sep "") eqn:E.
    + split; [done | intros H; destruct (H 0); exact E].
    + split; [|done]. intros _ i. rewrite drop_nil. congruence.
  - rewrite Index_cons. destruct (String.prefix sep (String c s)) eqn:E.
    + split; [done | intros H; destruct (H 0); exact E].
    + destruct (Index s sep) as [k|] eqn:Ek.
      * split; [done|]. intros H. exfalso.
        assert (Hn : Some k = None); [|done].
        apply IH. intros i. apply (H (S i)).
      * split; [|done]. intros _ [|i]; [rewrite drop_0; congruence|].
        now apply IH.
Qed.

Lemma prefix_app_self (sep b : string) : String.prefix sep (sep +:+ b) = true.
Proof. apply prefix_spec. now exists b. Qed.

Lemma Index_first (a sep b : string) :
  (forall i, i < String.length a -> ~ occursAt sep (a +:+ sep +:+ b) i) ->
  Index (a +:+ sep +:+ b) sep = Some (String.length a).
Proof.
  unfold occursAt. induction a as [|c a IH]; intros H.
  - change ("" +:+ sep +:+ b) with (sep +:+ b).
    pose proof (prefix_app_self sep b) as E.
    destruct (sep +:+ b); [rewrite Index_nil | rewrite Index_cons];
      now rewrite E.
  - change (String c a +:+ sep +:+ b) with (String c (a +:+ sep +:+ b)) in *.
    rewrite Index_cons.
    destruct (String.prefix sep (String c (a +:+ sep +:+ b))) eqn:E.
    + destruct (H 0); [simpl; lia | exact E].
    + rewrite IH; [reflexivity|]. intros i Hi. apply (H (S i)). simpl; lia.
Qed.

Lemma Index_bound (s sep : string) (m : nat) :
  Index s sep = Some m -> m + String.length sep <= String.length s.
Proof.
  revert m; induction s as [|c s IH]; intros m.
  - rewrite Index_nil. destruct (String.prefix sep "") eqn:E; [|done].
    intros [= <-]. apply prefix_length in E. simpl in *. lia.
  - rewrite Index_cons. destruct (String.prefix sep (String c s)) eqn:E.
    + intros [= <-]. apply prefix_length in E. simpl in *. lia.
    + destruct (Index s sep) as [k|] eqn:Ek; [|done].
      intros [= <-]. specialize (IH k eq_refl). simpl. lia.
Qed.

(** ** Split *)

Lemma genSplit_nil (sep : string) (n : nat) :
  sep <> "" -> genSplit n "" sep = [""].
Proof. destruct sep; [done|]. now destruct n. Qed.

Lemma genSplit_S (n : nat) (s sep : string) :
  genSplit (S n) s sep =
  match Index s sep with
  | None => [s]
  | Some m => take m s :: genSplit n (drop (m + String.length sep) s) sep
  end.
Proof. reflexivity. Qed.

Lemma genSplit_fuel (sep : string) (n1 n2 : nat) (s : string) :
  sep <> "" -> String.length s <= n1 -> String.length s <= n2 ->
  genSplit n1 s sep = genSplit n2 s sep.
Proof.
  intros Hsep. revert n2 s; induction n1 as [|n1 IH]; intros n2 s H1 H2.
  - destruct s; [|simpl in H1; lia]. now rewrite !genSplit_nil.
  - destruct n2 as [|n2].
    + destruct s; [|simpl in H2; lia]. now rewrite !genSplit_nil.
    + rewrite !genSplit_S. destruct (Index s sep) as [m|] eqn:E; [|reflexivity].
      f_equal. pose proof (Index_bound _ _ _ E) as Hb.
      assert (0 < String.length sep) by (destruct sep; [done | simpl; lia]).
      apply IH; rewrite length_drop; lia.
Qed.

Lemma Split_cut (s sep : string) (m : nat) :
  sep <> "" -> Index s sep = Some m ->
  Split s sep = take m s :: Split (drop (m + String.length sep) s) sep.
Proof.
  intros Hsep E. unfold Split. destruct sep as [|c sep]; [done|].
  destruct (String.length s) as [|n] eqn:Hn.
  - apply Index_bound in E. simpl in E. lia.
  - rewrite genSplit_S, E. f_equal.
    apply genSplit_fuel; [done| |lia].
    apply Index_bound in E. rewrite length_drop. simpl in *. lia.
Qed.

Lemma Split_whole (s sep : string) :
  sep <> "" -> Index s sep = None -> Split s sep = [s].
Proof.
  intros Hsep E. unfold Split. destruct sep as [|c sep]; [done|].
  destruct (String.length s); [reflexivity | now rewrite genSplit_S, E].
Qed.

(** Cutting at an occurrence that no earlier occurrence precedes. *)
Lemma Split_app (a sep b : string) :
  sep <> "" ->
  (forall i, i < String.length a -> ~ occursAt sep (a +:+ sep +:+ b) i) ->
  Split (a +:+ sep +:+ b) sep = a :: Split b sep.
Proof.
  intros Hsep H. rewrite (Split_cut _ _ (String.length a)) by
    (try apply Index_first; done).
  rewrite take_app_length, drop_add, drop_app_length, drop_app_length.
  reflexivity.
Qed.

Lemma Split_nonempty (s sep : string) : sep <> "" -> Split s sep <> [].
Proof.
  intros Hsep. destruct (Index s sep) as [m|] eqn:E.
  - now rewrite (Split_cut _ _ m).
  - now rewrite Split_whole.
Qed.

End StringFacts.

(** * Splitting at one byte *)

Section ByteSplit.
Import Utf8 Strings.
Variable c : ascii.
Local Abbreviation sep := (String c "").

Lemma before_after (s : string) :
  hasByte c s = true -> s = before c s +:+ String c (after c s).
Proof.
  induction s as [|d s IH]; simpl; [done|].
  destruct (Ascii.eqb_spec d c) as [->|Hne]; [reflexivity|].
  intros H. simpl. now rewrite <- IH.
Qed.

Lemma before_whole (s : string) : hasByte c s = false -> before c s = s.
Proof.
  induction s as [|d s IH]; simpl; [done|].
  destruct (Ascii.eqb d c); [done|]. intros H. now rewrite IH.
Qed.

Lemma hasByte_before (s : string) : hasByte c (before c s) = false.
Proof.
  induction s as [|d s IH]; simpl; [done|].
  destruct (Ascii.eqb d c) eqn:E; simpl; [done | now rewrite E].
Qed.

Lemma before_app (k v : string) :
  hasByte c k = false -> before c (k +:+ String c v) = k.
Proof.
  induction k as [|d k IH]; simpl.
  - now rewrite Ascii.eqb_refl.
  - destruct (Ascii.eqb d c); [done|]. intros H. now rewrite IH.
Qed.

Lemma after_app (k v : string) :
  hasByte c k = false -> after c (k +:+ String c v) = v.
Proof.
  induction k as [|d k IH]; simpl.
  - now rewrite Ascii.eqb_refl.
  - destruct (Ascii.eqb d c); [done|]. exact IH.
Qed.

Lemma occursAt_byte (s : string) (i : nat) :
  occursAt sep s i -> hasByte c s = true.
Proof.
  unfold occursAt. revert i; induction s as [|d s IH]; intros i.
  - now rewrite drop_nil.
  - destruct i as [|i]; simpl.
    + destruct (ascii_dec c d) as [->|]; [|done].
      now rewrite Ascii.eqb_refl.
    + intros H. apply IH in H. rewrite H. now destruct (Ascii.eqb d c).
Qed.

Lemma Split_byte (s : string) :
  hasByte c s = true ->
  Split s sep = before c s :: Split (after c s) sep.
Proof.
  intros H. rewrite (before_after s H) at 1.
  apply (Split_app (before c s) sep (after c s)); [done|].
  intros i Hi Hocc. unfold occursAt in Hocc.
  rewrite prefix_drop_app in Hocc by (simpl; lia).
  apply occursAt_byte in Hocc. now rewrite hasByte_before in Hocc.
Qed.

Lemma Split_byte_whole (s : string) :
  hasByte c s = false -> Split s sep = [s].
Proof.
  intros H. apply Split_whole; [done|]. apply Index_none.
  intros i Hocc%occursAt_byte. congruence.
Qed.

(** The first segment is always there: it is what precedes the first [c]. *)
Lemma Split_byte_head (s : string) :
  exists tl, Split s sep = before c s :: tl.
Proof.
  destruct (hasByte c s) eqn:H.
  - eexists. now apply Split_byte.
  - exists []. rewrite before_whole by done. now apply Split_byte_whole.
Qed.

Lemma Split_byte_0 (s : string) : index (Split s sep) 0 = Ok (before c s).
Proof. destruct (Split_byte_head s) as [tl ->]. reflexivity. Qed.

Lemma Split_byte_1 (s : string) :
  hasByte c s = true ->
  index (Split s sep) 1 = Ok (before c (after c s)).
Proof.
  intros H. rewrite Split_byte by done.
  destruct (Split_byte_head (after c s)) as [tl ->]. reflexivity.
Qed.

Lemma Split_byte_1_panic (s : string) :
  hasByte c s = false ->
  index (Split s sep) 1 = Panic (IndexOutOfRange 1 1).
Proof. intros H. now rewrite Split_byte_whole. Qed.

End ByteSplit.

(** * The tokenizer's map *)

Section FillMap.
Import Utf8 Strings.

Lemma fillMap_ok (its : list string) (m : gmap string string) :
  Forall wellFormed its ->
  fillMap m its =
  Ok (foldl (fun acc item => <[itemKey item := itemValue item]> acc) m its).
Proof.
  intros H; revert m; induction H as [|item its Hi _ IH]; intros m.
  - reflexivity.
  - cbn [fillMap foldl]. rewrite (Split_byte_0 "="), (Split_byte_1 "=") by exact Hi.
    cbn. apply IH.
Qed.

(** A field without separator stops the loop with the panic of [x[1]]. *)
Lemma fillMap_malformed (its : list string) (m : gmap string string) :
  ~ Forall wellFormed its -> fillMap m its = Panic (IndexOutOfRange 1 1).
Proof.
  revert m; induction its as [|item its IH]; intros m H.
  - destruct H. constructor.
  - cbn [fillMap]. rewrite (Split_byte_0 "="). cbn [mbind result_bind].
    destruct (hasByte "=" item) eqn:E.
    + rewrite (Split_byte_1 "=") by exact E. cbn [mbind result_bind].
      apply IH. intros Hr. apply H. now constructor.
    + now rewrite (Split_byte_1_panic "=") by exact E.
Qed.

Lemma foldl_insert_other (its : list string) (m : gmap string string) (k : string) :
  Forall (fun item => itemKey item <> k) its ->
  foldl (fun acc item => <[itemKey item := itemValue item]> acc) m its !! k
  = m !! k.
Proof.
  intros H; revert m; induction H as [|item its Hi _ IH]; intros m; cbn [foldl].
  - reflexivity.
  - rewrite IH. now apply lookup_insert_ne.
Qed.

End FillMap.

(** * The scanning loop of the tokenizer *)

Section Predicates.
Import Utf8 Unicode.

Lemma f_delimiter (st r : rune) (st' : rune) :
  f st r = (true, st') -> IsSpace r = true /\ st = 0%N /\ st' = 0%N.
Proof.
  unfold f. destruct (r =? st)%N; [done|].
  destruct (st =? 0)%N eqn:E; cbn [negb]; [|done].
  destruct (In_ r Quotation_Mark); [done|].
  intros [= -> <-]. apply N.eqb_eq in E. done.
Qed.

Lemma quote_not_space (r : rune) :
  In_ r Quotation_Mark = true -> IsSpace r = false.
Proof.
  unfold IsSpace, In_, Quotation_Mark, White_Space_tail, inEntry.
  cbn [existsb].
  rewrite !orb_true_iff, !andb_true_iff, !N.leb_le, !N.eqb_eq.
  intros H.
  destruct (N.leb_spec r 255).
  - rewrite !orb_false_iff, !N.eqb_neq. lia.
  - rewrite !orb_false_iff, !andb_false_iff, !N.leb_gt, !N.eqb_neq.
    repeat (destruct H as [H|H]); try done;
      destruct H as [[? ?] _]; repeat split; try lia; try done.
    right. assert (r = 8249 \/ r = 8250)%N as [-> | ->] by lia; done.
Qed.

End Predicates.

Section Fields.
Import Utf8 Unicode Strings.

Lemma bytesOf_app (a b : list (rune * string)) :
  bytesOf (a ++ b)%list = bytesOf a +:+ bytesOf b.
Proof.
  induction a as [|c a IH]; [reflexivity|].
  cbn [app bytesOf foldr]. fold (bytesOf (a ++ b)%list) (bytesOf a).
  now rewrite IH, app_assoc_s.
Qed.

Lemma bytesOf_one (c : rune * string) : bytesOf [c] = c.2.
Proof. cbn. apply app_nil_r_s. Qed.

Lemma fieldsLoop_cons (st : rune) (start : option string) (r : rune)
    (b : string) (rs : list (rune * string)) :
  fieldsLoop f st start ((r, b) :: rs) =
  if (f st r).1
  then (from_option (fun cur => [cur]) [] start ++ fieldsLoop f (f st r).2 None rs)%list
  else fieldsLoop f (f st r).2
         (Some (from_option (fun cur => cur +:+ b) b start)) rs.
Proof.
  cbn [fieldsLoop]. destruct (f st r) as [[] st'], start; reflexivity.
Qed.

(** The scan drops white space only: whatever a predicate that rejects
    white space selects is found again, in order, in the fields. *)
Lemma fieldsLoop_spans (rs : list (rune * string)) (st : rune)
    (open : option (list (rune * string))) :
  exists spans : list (list (rune * string)),
    fieldsLoop f st (bytesOf <$> open) rs = map bytesOf spans /\
    forall P : rune * string -> bool,
      (forall c, IsSpace c.1 = true -> P c = false) ->
      filter P (concat spans) = filter P (default [] open ++ rs)%list.
Proof.
  revert st open; induction rs as [|[r b] rs IH]; intros st open.
  - destruct open as [cur|].
    + exists [cur]. split; [reflexivity|]. intros P _. cbn. now rewrite !app_nil_r.
    + exists []. split; [reflexivity|]. reflexivity.
  - rewrite fieldsLoop_cons. destruct (f st r) as [[] st'] eqn:E; cbn [fst snd].
    + apply f_delimiter in E as (Hsp & _ & _).
      destruct (IH st' None) as (spans & Hs & Hf).
      destruct open as [cur|]; cbn [fmap option_fmap option_map from_option default app].
      * exists (cur :: spans). split; [cbn; now rewrite <- Hs|].
        intros P HP. cbn [concat]. rewrite !filter_app, (Hf P HP).
        rewrite filter_cons, (HP (r, b) Hsp). reflexivity.
      * exists spans. split; [exact Hs|].
        intros P HP. rewrite (Hf P HP). cbn [default app].
        rewrite filter_cons, (HP (r, b) Hsp). reflexivity.
    + destruct (IH st' (Some (default [] open ++ [(r, b)])%list)) as (spans & Hs & Hf).
      exists spans. split.
      * rewrite <- Hs. f_equal. destruct open as [cur|]; cbn.
        -- now rewrite bytesOf_app, bytesOf_one.
        -- now rewrite app_nil_r_s.
      * intros P HP. rewrite (Hf P HP). unfold default; cbn [from_option id].
        now rewrite <- app_assoc.
Qed.

(** An open field is the head of what the scan returns. *)
Lemma fieldsLoop_open (rs : list (rune * string)) (st : rune) (cur : string) :
  exists b tl, fieldsLoop f st (Some cur) rs = (cur +:+ b) :: tl.
Proof.
  revert st cur; induction rs as [|[r b] rs IH]; intros st cur.
  - exists "", []. cbn. now rewrite app_nil_r_s.
  - rewrite fieldsLoop_cons. destruct (f st r) as [[] st']; cbn.
    + exists "". eexists. now rewrite app_nil_r_s.
    + destruct (IH st' (cur +:+ b)) as (b' & tl & ->).
      exists (b +:+ b'), tl. now rewrite app_assoc_s.
Qed.

Lemma isQuote_nonzero (q : rune) : In_ q Quotation_Mark = true -> q <> 0%N.
Proof. intros H ->. done. Qed.

Lemma f_inside (q r : rune) : q <> 0%N -> r <> q -> f q r = (false, q).
Proof.
  intros Hq Hr. unfold f.
  destruct (N.eqb_spec r q) as [|_]; [done|].
  now destruct (N.eqb_spec q 0) as [|_].
Qed.

Lemma f_close (q : rune) : f q q = (false, 0%N).
Proof. unfold f. now rewrite N.eqb_refl. Qed.

Lemma f_open (q : rune) : In_ q Quotation_Mark = true -> f 0%N q = (false, q).
Proof.
  intros Hq. pose proof (isQuote_nonzero q Hq) as Hq0. unfold f.
  destruct (N.eqb_spec q 0) as [|_]; [done|]. cbn [N.eqb negb]. now rewrite Hq.
Qed.

(** Inside a quoted span nothing delimits. *)
Lemma fieldsLoop_quoted (q : rune) (body rest : list (rune * string))
    (cur : string) :
  q <> 0%N -> Forall (fun c => c.1 <> q) body ->
  fieldsLoop f q (Some cur) (body ++ rest)%list =
  fieldsLoop f q (Some (cur +:+ bytesOf body)) rest.
Proof.
  intros Hq H; revert cur; induction H as [|[r b] body Hr _ IH]; intros cur.
  - cbn [app bytesOf foldr]. now rewrite app_nil_r_s.
  - cbn [app]. rewrite fieldsLoop_cons, f_inside by done.
    cbn [fst snd from_option]. rewrite IH. do 2 f_equal.
    change (bytesOf ((r, b) :: body)) with (b +:+ bytesOf body).
    now rewrite app_assoc_s.
Qed.

Lemma fieldsLoop_span (pre body post : list (rune * string)) (q : rune)
    (qb qb' : string) (st : rune) (start : option string) :
  In_ q Quotation_Mark = true ->
  quoteAfter st pre = 0%N ->
  Forall (fun c => c.1 <> q) body ->
  exists item a b,
    item ∈ fieldsLoop f st start (pre ++ (q, qb) :: body ++ (q, qb') :: post)%list /\
    item = a +:+ qb +:+ bytesOf body +:+ qb' +:+ b.
Proof.
  intros Hq Hst Hbody. pose proof (isQuote_nonzero q Hq) as Hq0.
  revert st start Hst; induction pre as [|[r b] pre IH]; intros st start Hst.
  - cbn in Hst. subst st. cbn [app].
    rewrite fieldsLoop_cons, f_open by done. cbn [fst snd].
    rewrite fieldsLoop_quoted by done.
    rewrite fieldsLoop_cons, f_close. cbn [fst snd from_option].
    destruct (fieldsLoop_open post 0%N
      ((from_option (fun cur => cur +:+ qb) qb start +:+ bytesOf body) +:+ qb'))
      as (b & tl & ->).
    eexists _, (default "" start), b.
    split; [apply elem_of_cons; now left|].
    destruct start as [cur|]; cbn [from_option default id];
      now rewrite ?app_assoc_s.
  - cbn [app]. rewrite fieldsLoop_cons.
    change (quoteAfter (f st r).2 pre = 0%N) in Hst.
    destruct (f st r).1.
    + destruct (IH (f st r).2 None Hst) as (item & a & b' & Hin & Heq).
      exists item, a, b'. split; [|exact Heq].
      apply elem_of_app. now right.
    + apply IH. exact Hst.
Qed.

End Fields.

(** * The tokenizer *)

Section Tokenizer.
Import Utf8 Unicode Strings.

Lemma decode_width (c : ascii) (s : string) :
  1 <= (DecodeRuneInString (String c s)).2 <= 4.
Proof.
  unfold DecodeRuneInString.
  repeat match goal with
         | |- context [if ?b then _ else _] => destruct b
         | |- context [match ?x with _ => _ end] => destruct x
         end; cbn [snd]; lia.
Qed.

Lemma rangeFuel_bytes (n : nat) (s : string) :
  String.length s <= n -> bytesOf (rangeFuel n s) = s.
Proof.
  revert s; induction n as [|n IH]; intros s Hn.
  - destruct s; [reflexivity | simpl in Hn; lia].
  - destruct s as [|c s]; [reflexivity|].
    cbn [rangeFuel]. pose proof (decode_width c s) as Hw.
    destruct (DecodeRuneInString (String c s)) as [r w]. cbn [snd] in Hw.
    change (take w (String c s) +:+ bytesOf (rangeFuel n (drop w (String c s)))
            = String c s).
    rewrite IH; [apply take_drop|].
    rewrite length_drop. simpl in *. lia.
Qed.

(** The decoded runes partition the bytes of the string. *)
Lemma range_bytes (s : string) : bytesOf (range s) = s.
Proof. now apply rangeFuel_bytes. Qed.

Lemma rangeFuel_ascii (n : nat) (s : string) :
  String.length s <= n -> asciiOnly s = true ->
  rangeFuel n s =
  map (fun c => (byteN c, String c "")) (list_ascii_of_string s).
Proof.
  revert s; induction n as [|n IH]; intros [|c s] Hn Ha; try reflexivity.
  - simpl in Hn. lia.
  - cbn [asciiOnly] in Ha. apply andb_true_iff in Ha as [Hc Ha].
    cbn [rangeFuel list_ascii_of_string map].
    unfold DecodeRuneInString. rewrite Hc.
    cbn [take drop]. f_equal. apply IH; [simpl in Hn; lia | exact Ha].
Qed.

(** On ASCII text the runes are the bytes. *)
Lemma range_ascii (s : string) :
  asciiOnly s = true ->
  range s = map (fun c => (byteN c, String c "")) (list_ascii_of_string s).
Proof. now apply rangeFuel_ascii. Qed.

Lemma f_space (r : rune) : IsSpace r = true -> f 0%N r = (true, 0%N).
Proof.
  intros H. unfold f.
  destruct (N.eqb_spec r 0) as [->|_]; [done|]. cbn [N.eqb negb].
  destruct (In_ r Quotation_Mark) eqn:E; [|now rewrite H].
  apply quote_not_space in E. congruence.
Qed.

Lemma quoteAfter_cons (st : rune) (c : rune * string) (rs : list (rune * string)) :
  quoteAfter st (c :: rs) = quoteAfter (f st c.1).2 rs.
Proof. reflexivity. Qed.

(** White space met outside a quoted span ends the field before it and
    starts none. *)
Lemma fieldsLoop_cut (pre post : list (rune * string)) (r : rune) (b : string)
    (st : rune) (start : option string) :
  quoteAfter st pre = 0%N -> IsSpace r = true ->
  fieldsLoop f st start (pre ++ (r, b) :: post)%list =
  (fieldsLoop f st start pre ++ fieldsLoop f 0%N None post)%list.
Proof.
  revert st start; induction pre as [|[r0 b0] pre IH]; intros st start Hq Hr.
  - cbn in Hq. subst st. cbn [app]. rewrite fieldsLoop_cons, f_space by exact Hr.
    cbn [fst snd fieldsLoop]. now destruct start.
  - rewrite quoteAfter_cons in Hq. cbn [fst] in Hq.
    rewrite <- app_comm_cons, !fieldsLoop_cons.
    destruct (f st r0).1.
    + rewrite IH by done. now rewrite app_assoc.
    + now rewrite IH.
Qed.

(** Runes that hold no white space outside a quoted span form one field. *)
Lemma fieldsLoop_whole (rs : list (rune * string)) (st : rune) (cur : string) :
  (forall pre r b post, rs = (pre ++ (r, b) :: post)%list ->
     IsSpace r = true -> quoteAfter st pre <> 0%N) ->
  fieldsLoop f st (Some cur) rs = [cur +:+ bytesOf rs].
Proof.
  revert st cur; induction rs as [|[r b] rs IH]; intros st cur H.
  - cbn. now rewrite app_nil_r_s.
  - rewrite fieldsLoop_cons.
    destruct (f st r) as [[] st'] eqn:E; cbn [fst snd from_option].
    + apply f_delimiter in E as (Hs & -> & _).
      now destruct (H [] r b rs eq_refl Hs).
    + rewrite IH.
      * cbn [bytesOf foldr snd]. now rewrite app_assoc_s.
      * intros pre r1 b1 post -> Hs.
        specialize (H ((r, b) :: pre) r1 b1 post eq_refl Hs).
        rewrite quoteAfter_cons in H. cbn [fst] in H. now rewrite E in H.
Qed.

Lemma fieldsLoop_whole_line (rs : list (rune * string)) :
  rs <> [] ->
  (forall pre r b post, rs = (pre ++ (r, b) :: post)%list ->
     IsSpace r = true -> quoteAfter 0%N pre <> 0%N) ->
  fieldsLoop f 0%N None rs = [bytesOf rs].
Proof.
  destruct rs as [|[r b] rs]; [done|]. intros _ H.
  rewrite fieldsLoop_cons.
  destruct (f 0%N r) as [[] st'] eqn:E; cbn [fst snd from_option].
  - apply f_delimiter in E as (Hs & _ & _).
    now destruct (H [] r b rs eq_refl Hs).
  - rewrite fieldsLoop_whole; [reflexivity|].
    intros pre r1 b1 post -> Hs.
    specialize (H ((r, b) :: pre) r1 b1 post eq_refl Hs).
    rewrite quoteAfter_cons in H. cbn [fst] in H. now rewrite E in H.
Qed.

Lemma range_nonempty (line : string) : line <> "" -> range line <> [].
Proof.
  intros H E. apply H. rewrite <- (range_bytes line). now rewrite E.
Qed.

(** C1, as the code has it.  For every line, the tokenizer drops white
    space only: the fields hold, in order, every rune of the line that is
    not white space, and in particular every quotation mark, so the quote
    characters are content of the token.  White space inside a quoted
    span does not delimit: a span opened by a quotation mark [q] outside
    any quote and closed by the next [q] lies, quotes included, within one
    field.  White space outside a quoted span delimits and is left out:
    the fields of the line are the fields of the runes before it followed
    by the fields of the runes behind it.  Nothing else delimits: a line
    that is not empty and holds no white space outside a quoted span is
    one field, the line itself.  The example line yields hostport, status
    and nofs, the status value being the text with both double quotes
    around it. *)
Theorem getMap_keeps_quotes (line : string) :
  (exists spans : list (list (rune * string)),
      items line = map bytesOf spans /\
      filter notSpace (concat spans) = filter notSpace (range line) /\
      filter isQuote (concat spans) = filter isQuote (range line)) /\
  (forall (pre body post : list (rune * string)) (q : rune) (qb qb' : string),
      range line = (pre ++ (q, qb) :: body ++ (q, qb') :: post)%list ->
      isQuote (q, qb) = true ->
      quoteAfter 0%N pre = 0%N ->
      Forall (fun c => c.1 <> q) body ->
      exists item a b,
        item ∈ items line /\
        item = a +:+ qb +:+ bytesOf body +:+ qb' +:+ b) /\
  (forall (pre post : list (rune * string)) (r : rune) (b : string),
      range line = (pre ++ (r, b) :: post)%list ->
      quoteAfter 0%N pre = 0%N ->
      IsSpace r = true ->
      items line = (fieldsLoop f 0%N None pre ++ fieldsLoop f 0%N None post)%list) /\
  (line <> "" ->
   (forall (pre post : list (rune * string)) (r : rune) (b : string),
      range line = (pre ++ (r, b) :: post)%list ->
      IsSpace r = true -> quoteAfter 0%N pre <> 0%N) ->
   items line = [line]) /\
  getMap exampleLine = Ok exampleMap.
Proof.
  split; [|split; [|split; [|split]]].
  - destruct (fieldsLoop_spans (range line) 0%N None) as (spans & Hs & Hf).
    exists spans. split; [exact Hs|]. split; apply Hf.
    + intros c Hc. unfold notSpace. now rewrite Hc.
    + intros c Hc. unfold isQuote.
      destruct (In_ c.1 Quotation_Mark) eqn:E; [|reflexivity].
      apply quote_not_space in E. congruence.
  - intros pre body post q qb qb' Hline Hq Hpre Hbody.
    unfold items, FieldsFunc. rewrite Hline.
    now apply fieldsLoop_span.
  - intros pre post r b Hline Hpre Hr.
    unfold items, FieldsFunc. rewrite Hline.
    now apply fieldsLoop_cut.
  - intros Hne Hno. unfold items, FieldsFunc.
    rewrite fieldsLoop_whole_line.
    + now rewrite range_bytes.
    + now apply range_nonempty.
    + intros pre r b post. apply Hno.
  - vm_compute. reflexivity.
Qed.

Lemma getMap_keeps_quotes_witness :
  (exists item a b,
     item ∈ items exampleLine /\
     item = a +:+ dquote +:+ bytesOf (range "active now") +:+ dquote +:+ b) /\
  items exampleLine =
    (fieldsLoop f 0%N None (range "hostport=abc.cern.ch:1095") ++
     fieldsLoop f 0%N None
       (range ("status=" +:+ dquote +:+ "active now" +:+ dquote +:+ " nofs=12")))%list /\
  items (dquote +:+ "a b" +:+ dquote) = [dquote +:+ "a b" +:+ dquote].
Proof.
  split; [|split].
  - destruct (getMap_keeps_quotes exampleLine) as (_ & H & _).
    apply (H (range "hostport=abc.cern.ch:1095 status=") (range "active now")
             (range " nofs=12") 34%N dquote dquote).
    + vm_compute. reflexivity.
    + vm_compute. reflexivity.
    + vm_compute. reflexivity.
    + vm_compute. repeat constructor; discriminate.
  - destruct (getMap_keeps_quotes exampleLine) as (_ & _ & H & _).
    apply (H (range "hostport=abc.cern.ch:1095")
             (range ("status=" +:+ dquote +:+ "active now" +:+ dquote +:+ " nofs=12"))
             32%N " ").
    + vm_compute. reflexivity.
    + vm_compute. reflexivity.
    + vm_compute. reflexivity.
  - destruct (getMap_keeps_quotes (dquote +:+ "a b" +:+ dquote)) as (_ & _ & _ & H & _).
    apply H; [discriminate|].
    assert (E : range (dquote +:+ "a b" +:+ dquote)
                = [(34%N, dquote); (97%N, "a"); (32%N, " "); (98%N, "b");
                   (34%N, dquote)]) by (vm_compute; reflexivity).
    rewrite E. intros pre post r b Hd Hs.
    do 5 (destruct pre as [|? pre];
          [injection Hd as <- <- <-; vm_compute in Hs |- *; congruence
          |injection Hd as <- Hd]).
    now destruct pre.
Defined.

(** C1 as stated fails on the example line: the map is not the expected
    one, the status value keeps its two double quotes. *)
Lemma getMap_example_status_quoted :
  getMap exampleLine <> Ok expectedMap /\
  exists m, getMap exampleLine = Ok m /\
            m !! "status" = Some (dquote +:+ "active now" +:+ dquote) /\
            m !! "status" <> Some "active now".
Proof.
  assert (H : getMap exampleLine = Ok exampleMap) by (vm_compute; reflexivity).
  split.
  - rewrite H. intros E.
    apply (f_equal (fun r : result (gmap string string) =>
                      match r with Ok m => m !! "status" | _ => None end)) in E.
    vm_compute in E. discriminate E.
  - exists exampleMap. split; [exact H|]. split; [vm_compute; reflexivity|].
    vm_compute. discriminate.
Qed.

(** C9.  For every line all of whose fields hold a [=], both indexings
    of the [=]-split of each field are in bounds and the tokenizer
    returns a map: the out-of-range panic cannot happen. *)
Theorem getMap_in_bounds (line : string) :
  Forall wellFormed (items line) ->
  (forall item, item ∈ items line ->
     exists k v, index (Split item "=") 0 = Ok k /\
                 index (Split item "=") 1 = Ok v) /\
  exists m, getMap line = Ok m.
Proof.
  intros H. split.
  - intros item Hin. rewrite Forall_forall in H. specialize (H item Hin).
    exists (itemKey item), (itemValue item). split.
    + apply (Split_byte_0 "=").
    + now apply (Split_byte_1 "=").
  - eexists. unfold getMap. now apply fillMap_ok.
Qed.

Lemma getMap_in_bounds_witness :
  (forall item, item ∈ items exampleLine ->
     exists k v, index (Split item "=") 0 = Ok k /\
                 index (Split item "=") 1 = Ok v) /\
  exists m, getMap exampleLine = Ok m.
Proof.
  apply (getMap_in_bounds exampleLine).
  vm_compute. repeat constructor.
Defined.

Lemma itemKey_app (k v : string) :
  hasByte "=" k = false -> itemKey (k +:+ "=" +:+ v) = k.
Proof. intros Hk. apply (before_app "=" k v Hk). Qed.

Lemma itemValue_app (k v : string) :
  hasByte "=" k = false -> itemValue (k +:+ "=" +:+ v) = before "=" v.
Proof.
  intros Hk. unfold itemValue.
  change (k +:+ "=" +:+ v) with (k +:+ String "=" v).
  now rewrite after_app.
Qed.

(** C3, as the code has it.  The token is split at every [=]; the key is
    the segment before the first [=] and the value the segment between
    the first and the second [=].  So for a well-formed line whose last
    field with key [k] is [k=v], the map sends [k] to the part of [v]
    before its first [=], which is all of [v] when [v] holds no [=]. *)
Theorem getMap_value_first_segment (line : string) (its1 its2 : list string)
    (k v : string) :
  items line = (its1 ++ (k +:+ "=" +:+ v) :: its2)%list ->
  hasByte "=" k = false ->
  Forall wellFormed (items line) ->
  Forall (fun item => itemKey item <> k) its2 ->
  exists m, getMap line = Ok m /\
            m !! k = Some (before "=" v) /\
            (hasByte "=" v = false -> m !! k = Some v).
Proof.
  intros Hits Hk Hwf Hlast. eexists. split.
  - unfold getMap. now apply fillMap_ok.
  - assert (E : foldl (fun acc item => <[itemKey item := itemValue item]> acc)
                  (∅ : gmap string string) (items line) !! k
                = Some (before "=" v)).
    { rewrite Hits, foldl_app. cbn [foldl].
      rewrite foldl_insert_other by exact Hlast.
      rewrite itemKey_app, itemValue_app by exact Hk.
      apply lookup_insert_eq. }
    split; [exact E|]. intros Hv. rewrite E. now rewrite before_whole.
Qed.

Lemma getMap_value_first_segment_witness :
  exists m, getMap "x=1 a=b=c" = Ok m /\
            m !! "a" = Some (before "=" "b=c") /\
            (hasByte "=" "b=c" = false -> m !! "a" = Some "b=c").
Proof.
  apply (getMap_value_first_segment "x=1 a=b=c" ["x=1"] [] "a" "b=c").
  - vm_compute. reflexivity.
  - reflexivity.
  - vm_compute. repeat constructor.
  - constructor.
Defined.

(** C3 as stated fails: in [a=b=c] the value of [a] is [b], not [b=c]. *)
Lemma getMap_value_cut_at_second_separator :
  exists m, getMap "a=b=c" = Ok m /\
            m !! "a" = Some "b" /\ m !! "a" <> Some "b=c".
Proof.
  exists (<["a" := "b"]> ∅). split; [vm_compute; reflexivity|].
  split; [vm_compute; reflexivity | vm_compute; discriminate].
Qed.

End Tokenizer.

(** * Projectors and listing parsers *)

Section Projectors.
Import Utf8 Strings.

Lemma fillMap_no_error (its : list string) (m : gmap string string) :
  (exists kv, fillMap m its = Ok kv) \/ (exists p, fillMap m its = Panic p).
Proof.
  revert m; induction its as [|item its IH]; intros m.
  - left. now exists m.
  - cbn [fillMap]. rewrite (Split_byte_0 "="). cbn [mbind result_bind].
    destruct (index (Split item "=") 1) as [v|e|p] eqn:E.
    + apply IH.
    + unfold index in E. now destruct (nth_error _ _).
    + right. now exists p.
Qed.

Lemma getMap_no_error (line : string) :
  (exists kv, getMap line = Ok kv) \/ (exists p, getMap line = Panic p).
Proof. apply fillMap_no_error. Qed.

(** C4.  Each of the four record projectors is a total function of the
    mapping: every field equals the mapping's value at its fixed source
    key and is empty when the key is missing.  Projection adds no failure
    of its own: whenever the tokenizer returns a mapping, each single-line
    parser returns the projected record, and no parser ever returns an
    error.  Projecting the mapping with name, cfg.status and nofs gives
    a group record with these three fields set and all others empty. *)
Theorem projectors_total :
  (Forall (reads nodeInfoOf) nodeFields /\
   Forall (reads spaceInfoOf) spaceFields /\
   Forall (reads groupInfoOf) groupFields /\
   Forall (reads fsInfoOf) fsFields) /\
  (forall line : string,
     (exists kv, getMap line = Ok kv /\
        parseNodeInfo line = Ok (nodeInfoOf kv) /\
        parseSpaceInfo line = Ok (spaceInfoOf kv) /\
        parseGroupInfo line = Ok (groupInfoOf kv) /\
        parseFSInfo line = Ok (fsInfoOf kv)) \/
     (exists p, getMap line = Panic p)) /\
  groupInfoOf exampleGroupMap = exampleGroup.
Proof.
  split; [|split].
  - split; [|split; [|split]]; repeat constructor.
  - intros line. destruct (getMap_no_error line) as [[kv H]|[p H]].
    + left. exists kv. unfold parseNodeInfo, parseSpaceInfo, parseGroupInfo,
        parseFSInfo. rewrite H. repeat split.
    + right. now exists p.
  - vm_compute. reflexivity.
Qed.

End Projectors.

Section Listing.
Context {A : Type} (parseOne : string -> result A).

Lemma parseLines_ok (rawLines : list string) (infos : list A) :
  Forall (fun rl => rl <> "" -> exists a, parseOne rl = Ok a) rawLines ->
  exists recs,
    parseLines parseOne infos rawLines = Ok (infos ++ recs)%list /\
    Forall2 (fun rl rec => parseOne rl = Ok rec)
            (filter (fun rl => rl <> "") rawLines) recs.
Proof.
  intros H; revert infos; induction H as [|rl rest Hrl _ IH]; intros infos.
  - exists []. split; [cbn; now rewrite app_nil_r | constructor].
  - cbn [parseLines]. destruct (String.eqb_spec rl "") as [->|Hne].
    + destruct (IH infos) as (recs & E & F). exists recs. split; [exact E|].
      now rewrite filter_cons_False by (intros ?; done).
    + destruct (Hrl Hne) as [a Ha]. rewrite Ha. cbn [mbind result_bind].
      destruct (IH (infos ++ [a])%list) as (recs & E & F).
      exists (a :: recs). split; [now rewrite E, <- app_assoc|].
      rewrite filter_cons_True by done. now constructor.
Qed.

End Listing.

Section ListingParsers.
Import Utf8 Strings.

Lemma parseOne_ok {A : Type} (proj : gmap string string -> A) (rl : string) :
  lineOK rl -> exists a, (kv ← getMap rl; Ok (proj kv)) = Ok a.
Proof.
  intros H. unfold getMap. rewrite fillMap_ok by exact H. now eexists.
Qed.

(** C8, as the code has it.  For every raw text all of whose lines the
    tokenizer accepts, each of the four listing parsers returns one
    record per non-empty line, in the order of the lines: the i-th record
    is the projection of the i-th non-empty line. *)
Theorem listing_preserves_line_order (raw : string) :
  Forall lineOK (Split raw newline) ->
  (exists recs, parseNodesInfo raw = Ok recs /\
     Forall2 (fun rl rec => parseNodeInfo rl = Ok rec)
       (filter (fun rl => rl <> "") (Split raw newline)) recs) /\
  (exists recs, parseSpacesInfo raw = Ok recs /\
     Forall2 (fun rl rec => parseSpaceInfo rl = Ok rec)
       (filter (fun rl => rl <> "") (Split raw newline)) recs) /\
  (exists recs, parseGroupsInfo raw = Ok recs /\
     Forall2 (fun rl rec => parseGroupInfo rl = Ok rec)
       (filter (fun rl => rl <> "") (Split raw newline)) recs) /\
  (exists recs, parseFSsInfo raw = Ok recs /\
     Forall2 (fun rl rec => parseFSInfo rl = Ok rec)
       (filter (fun rl => rl <> "") (Split raw newline)) recs).
Proof.
  intros H.
  split; [|split; [|split]];
    (eapply (parseLines_ok _ _ []), Forall_impl; [exact H|];
     intros rl Hrl _; now apply parseOne_ok).
Qed.

Lemma listing_preserves_line_order_witness :
  (exists recs, parseNodesInfo exampleListing = Ok recs /\
     Forall2 (fun rl rec => parseNodeInfo rl = Ok rec)
       (filter (fun rl => rl <> "") (Split exampleListing newline)) recs) /\
  (exists recs, parseSpacesInfo exampleListing = Ok recs /\
     Forall2 (fun rl rec => parseSpaceInfo rl = Ok rec)
       (filter (fun rl => rl <> "") (Split exampleListing newline)) recs) /\
  (exists recs, parseGroupsInfo exampleListing = Ok recs /\
     Forall2 (fun rl rec => parseGroupInfo rl = Ok rec)
       (filter (fun rl => rl <> "") (Split exampleListing newline)) recs) /\
  (exists recs, parseFSsInfo exampleListing = Ok recs /\
     Forall2 (fun rl rec => parseFSInfo rl = Ok rec)
       (filter (fun rl => rl <> "") (Split exampleListing newline)) recs).
Proof.
  apply (listing_preserves_line_order exampleListing).
  assert (E : Split exampleListing newline =
              ["hostport=a.cern.ch:1095 status=online"; "";
               "hostport=b.cern.ch:1095 status=offline"; ""])
    by (vm_compute; reflexivity).
  rewrite E.
  repeat (constructor; [unfold lineOK; vm_compute; repeat constructor|]).
  constructor.
Defined.

(** C8 as stated fails: on the one-line text [x], whose only field holds
    no [=], no listing parser returns a sequence; each one panics. *)
Lemma listing_panics_on_malformed_line :
  Split "x" newline = ["x"] /\
  parseNodesInfo "x" = Panic (IndexOutOfRange 1 1) /\
  parseSpacesInfo "x" = Panic (IndexOutOfRange 1 1) /\
  parseGroupsInfo "x" = Panic (IndexOutOfRange 1 1) /\
  parseFSsInfo "x" = Panic (IndexOutOfRange 1 1).
Proof.
  split; [|split; [|split; [|split]]]; vm_compute; reflexivity.
Qed.

End ListingParsers.

(** * The version projector *)

Section Hostname.
Import Utf8 Strings.

Lemma getHostname_colon (hostport : string) :
  hasByte ":" hostport = true ->
  getHostname hostport =
  Ok (before ":" hostport, before ":" (after ":" hostport)).
Proof.
  intros H. unfold getHostname.
  now rewrite (Split_byte_0 ":"), (Split_byte_1 ":") by exact H.
Qed.

Lemma getHostname_no_colon (hostport : string) :
  hasByte ":" hostport = false ->
  getHostname hostport = Panic (IndexOutOfRange 1 1).
Proof.
  intros H. unfold getHostname.
  now rewrite (Split_byte_0 ":"), (Split_byte_1_panic ":") by exact H.
Qed.

Lemma parseUptime_total (uptime : string) :
  exists v out, parseUptime uptime = Ok (v, out).
Proof.
  unfold parseUptime.
  destruct (Split uptime "%20days,") as [|s tl] eqn:E;
    [now apply Split_nonempty in E|].
  cbn [index nth_error mbind result_bind].
  destruct (Split s "up%20") as [|a [|b tl']]; cbn; eauto.
Qed.

Lemma parseVSInfo_no_index_panic (mgm : string) (node : option NodeLS.t) :
  (forall n, node = Some n -> hasByte ":" (NodeLS.HostPort n) = true) ->
  forall i len, parseVSInfo mgm node <> Panic (IndexOutOfRange i len).
Proof.
  intros H i len. unfold parseVSInfo. destruct node as [n|]; [|done].
  cbn [mbind result_bind]. rewrite getHostname_colon by now apply H.
  cbn [mbind result_bind]. destruct (NodeLS.Cfg n) as [cfg|]; [|done].
  cbn [mbind result_bind].
  destruct (parseUptime_total (Sys.Uptime (Stat.Sys (NodeLSCfg.Stat cfg))))
    as (v & out & ->). done.
Qed.

Lemma parseVSsLoop_no_index_panic (mgm : string) (nodes : list (option NodeLS.t))
    (vsinfos : list VSInfo.t) (out : list string) :
  Forall (fun node => forall n, node = Some n ->
                      hasByte ":" (NodeLS.HostPort n) = true) nodes ->
  forall i len, parseVSsLoop mgm vsinfos out nodes <> Panic (IndexOutOfRange i len).
Proof.
  intros H; revert vsinfos out; induction H as [|node nodes Hn _ IH];
    intros vsinfos out i len; [done|].
  cbn [parseVSsLoop].
  pose proof (parseVSInfo_no_index_panic mgm node Hn i len) as Hp.
  destruct (parseVSInfo mgm node) as [r|e|p]; cbn [mbind result_bind].
  - apply IH.
  - done.
  - congruence.
Qed.

(** C10.  [getHostname] is safe exactly when its argument holds a [:].
    For every string with a [:], both indexings of the split are in
    bounds, the host name is the segment before the first [:] and the
    port the segment behind it, up to the next [:] if there is one.  For
    a string without [:], the second indexing is out of range.  So the
    version projection of a decoded document all of whose nodes have a
    [:] in their hostport never fails with an index out of range. *)
Theorem getHostname_safe_iff_colon :
  (forall hostport, hasByte ":" hostport = true ->
     exists h rest,
       hostport = h +:+ ":" +:+ rest /\ hasByte ":" h = false /\
       getHostname hostport = Ok (h, before ":" rest)) /\
  (forall hostport, hasByte ":" hostport = false ->
     getHostname hostport = Panic (IndexOutOfRange 1 1)) /\
  (forall mgmVersion nodeLSResponse,
     Forall (fun node => forall n, node = Some n ->
                         hasByte ":" (NodeLS.HostPort n) = true)
            (NodeLSResponse.Result nodeLSResponse) ->
     forall i len,
       parseVSsInfo mgmVersion nodeLSResponse <> Panic (IndexOutOfRange i len)).
Proof.
  split; [|split].
  - intros hostport H. exists (before ":" hostport), (after ":" hostport).
    split; [now apply (before_after ":")|].
    split; [apply hasByte_before | now apply getHostname_colon].
  - apply getHostname_no_colon.
  - intros mgm resp H i len. unfold parseVSsInfo.
    destruct (negb _); [done|]. now apply parseVSsLoop_no_index_panic.
Qed.

Lemma getHostname_safe_iff_colon_witness :
  (exists h rest,
     "fst1.cern.ch:1095" = h +:+ ":" +:+ rest /\ hasByte ":" h = false /\
     getHostname "fst1.cern.ch:1095" = Ok (h, before ":" rest)) /\
  getHostname "fst1.cern.ch" = Panic (IndexOutOfRange 1 1) /\
  (forall i len,
     parseVSsInfo "5.1.22" (NodeLSResponse.mk "" [Some exampleNode])
     <> Panic (IndexOutOfRange i len)).
Proof.
  destruct getHostname_safe_iff_colon as (H1 & H2 & H3).
  split; [|split].
  - apply H1. reflexivity.
  - apply H2. reflexivity.
  - apply H3. constructor; [|constructor].
    intros n [= <-]. reflexivity.
Defined.

End Hostname.

Section Uptime.
Import Utf8 Strings.

Lemma occursAt_app_l (sep a b : string) (i : nat) :
  sep <> "" -> occursAt sep a i -> occursAt sep (a +:+ b) i.
Proof.
  unfold occursAt. intros Hsep H.
  pose proof (prefix_length _ _ H) as Hl. rewrite length_drop in Hl.
  rewrite prefix_drop_app; [exact H|].
  destruct sep; [done | simpl in *; lia].
Qed.

Lemma parseUptime_days (pre N post : string) :
  (forall i, i < String.length pre ->
     ~ occursAt "up%20" (pre +:+ "up%20" +:+ N +:+ "%20days," +:+ post) i) ->
  (forall i, i < String.length (pre +:+ "up%20" +:+ N) ->
     ~ occursAt "%20days," (pre +:+ "up%20" +:+ N +:+ "%20days," +:+ post) i) ->
  (forall i, ~ occursAt "up%20" N i) ->
  parseUptime (pre +:+ "up%20" +:+ N +:+ "%20days," +:+ post) = Ok (N, []).
Proof.
  intros H1 H2 H3. unfold parseUptime.
  assert (E : pre +:+ "up%20" +:+ N +:+ "%20days," +:+ post
              = (pre +:+ "up%20" +:+ N) +:+ "%20days," +:+ post)
    by now rewrite !app_assoc_s.
  rewrite E in H1, H2 |- *.
  rewrite Split_app by done. cbn [index nth_error mbind result_bind].
  rewrite Split_app; [rewrite Split_whole; [reflexivity | done |] | done |].
  - now apply Index_none.
  - intros i Hi Hocc. apply (H1 i Hi). now apply occursAt_app_l.
Qed.

Lemma parseUptime_no_marker (uptime : string) :
  (forall i, ~ occursAt "up%20" uptime i) ->
  exists s,
    parseUptime uptime =
    Ok ("0", ["Wrong uptime:  [" +:+ s +:+ "]" +:+ newline]).
Proof.
  intros H. unfold parseUptime.
  assert (Hs : exists s tl, Split uptime "%20days," = s :: tl /\
                            forall i, ~ occursAt "up%20" s i).
  { destruct (Index uptime "%20days,") as [m|] eqn:E.
    - rewrite (Split_cut _ _ m) by done. do 2 eexists. split; [reflexivity|].
      intros i Hocc. apply (H i).
      rewrite <- (take_drop m uptime). now apply occursAt_app_l.
    - rewrite Split_whole by done. now exists uptime, []. }
  destruct Hs as (s & tl & -> & Hs). exists s.
  cbn [index nth_error mbind result_bind].
  rewrite Split_whole; [reflexivity | done | now apply Index_none].
Qed.

Lemma parseVSInfo_good (mgm : string) (node : option NodeLS.t) :
  goodNode node ->
  exists info out n cfg v,
    node = Some n /\ NodeLS.Cfg n = Some cfg /\
    parseUptime (Sys.Uptime (Stat.Sys (NodeLSCfg.Stat cfg))) = Ok (v, out) /\
    parseVSInfo mgm node = Ok (info, out) /\
    VSInfo.Uptime info = v /\
    VSInfo.EOSmgm info = mgm /\
    VSInfo.Hostname info = before ":" (NodeLS.HostPort n) /\
    VSInfo.Port info = before ":" (after ":" (NodeLS.HostPort n)).
Proof.
  intros (n & cfg & -> & Hcfg & Hhp).
  destruct (parseUptime_total (Sys.Uptime (Stat.Sys (NodeLSCfg.Stat cfg))))
    as (v & out & E).
  eexists _, out, n, cfg, v.
  split; [reflexivity|]. split; [exact Hcfg|]. split; [exact E|].
  unfold parseVSInfo.
  cbn [mbind result_bind]. rewrite getHostname_colon by exact Hhp.
  cbn [mbind result_bind]. rewrite Hcfg. cbn [mbind result_bind].
  rewrite E. cbn [mbind result_bind]. repeat split.
Qed.

Lemma parseVSsLoop_good (mgm : string) (nodes : list (option NodeLS.t))
    (vsinfos : list VSInfo.t) (out : list string) :
  Forall goodNode nodes ->
  exists infos out',
    parseVSsLoop mgm vsinfos out nodes = Ok ((vsinfos ++ infos)%list, out') /\
    Forall2 (fun node info => exists o, parseVSInfo mgm node = Ok (info, o))
            nodes infos.
Proof.
  intros H; revert vsinfos out; induction H as [|node nodes Hn _ IH];
    intros vsinfos out.
  - exists [], out. split; [cbn; now rewrite app_nil_r | constructor].
  - cbn [parseVSsLoop].
    destruct (parseVSInfo_good mgm node Hn)
      as (info & o & n & cfg & v & _ & _ & _ & E & _).
    rewrite E. cbn [mbind result_bind fst snd].
    destruct (IH (vsinfos ++ [info])%list (out ++ o)%list) as (infos & out' & -> & F).
    exists (info :: infos), out'. split; [now rewrite <- app_assoc|].
    constructor; [now exists o | exact F].
Qed.

(** C7, as the code has it.  For an uptime string
    [pre up%20 N %20days, post] in which no [up%20] starts before the one
    shown, no [%20days,] starts before the one shown and [N] holds no
    [up%20], the derived uptime is [N] and nothing is printed.  For every
    uptime string without [up%20] the derived uptime is ["0"] and one
    warning line is printed.  The derivation is total, and the version
    projector of a node with a configuration and a [:] in its hostport
    returns a record whose uptime is the derived value.  The batch never
    fails because of an uptime: for a document without error message in
    which every node has a configuration and a [:] in its hostport,
    whatever the uptime strings are, [parseVSsInfo] returns one record
    per node, in order, each with the uptime derived from its node. *)
Theorem uptime_derivation :
  (forall pre N post : string,
     (forall i, i < String.length pre ->
        ~ occursAt "up%20" (pre +:+ "up%20" +:+ N +:+ "%20days," +:+ post) i) ->
     (forall i, i < String.length (pre +:+ "up%20" +:+ N) ->
        ~ occursAt "%20days," (pre +:+ "up%20" +:+ N +:+ "%20days," +:+ post) i) ->
     (forall i, ~ occursAt "up%20" N i) ->
     parseUptime (pre +:+ "up%20" +:+ N +:+ "%20days," +:+ post) = Ok (N, [])) /\
  (forall uptime : string,
     (forall i, ~ occursAt "up%20" uptime i) ->
     exists s, parseUptime uptime =
               Ok ("0", ["Wrong uptime:  [" +:+ s +:+ "]" +:+ newline])) /\
  (forall uptime : string, exists v out, parseUptime uptime = Ok (v, out)) /\
  (forall (mgmVersion : string) (n : NodeLS.t) (cfg : NodeLSCfg.t),
     NodeLS.Cfg n = Some cfg ->
     hasByte ":" (NodeLS.HostPort n) = true ->
     exists v out info,
       parseUptime (Sys.Uptime (Stat.Sys (NodeLSCfg.Stat cfg))) = Ok (v, out) /\
       parseVSInfo mgmVersion (Some n) = Ok (info, out) /\
       VSInfo.Uptime info = v) /\
  (forall (mgmVersion : string) (nodeLSResponse : NodeLSResponse.t),
     NodeLSResponse.ErrorMsg nodeLSResponse = "" ->
     Forall goodNode (NodeLSResponse.Result nodeLSResponse) ->
     exists infos out,
       parseVSsInfo mgmVersion nodeLSResponse = Ok (infos, out) /\
       Forall2 (fun node info =>
                  exists n cfg v o,
                    node = Some n /\ NodeLS.Cfg n = Some cfg /\
                    parseUptime (Sys.Uptime (Stat.Sys (NodeLSCfg.Stat cfg)))
                      = Ok (v, o) /\
                    VSInfo.Uptime info = v)
               (NodeLSResponse.Result nodeLSResponse) infos).
Proof.
  split; [exact parseUptime_days|].
  split; [exact parseUptime_no_marker|].
  split; [exact parseUptime_total|].
  split.
  - intros mgm n cfg Hcfg Hhp.
    destruct (parseUptime_total (Sys.Uptime (Stat.Sys (NodeLSCfg.Stat cfg))))
      as (v & out & E).
    exists v, out. eexists. split; [exact E|].
    unfold parseVSInfo. cbn [mbind result_bind].
    rewrite getHostname_colon by exact Hhp. cbn [mbind result_bind].
    rewrite Hcfg. cbn [mbind result_bind]. rewrite E. cbn [mbind result_bind].
    split; reflexivity.
  - intros mgm resp Hm Hn. unfold parseVSsInfo. rewrite Hm.
    cbn [String.eqb negb].
    destruct (parseVSsLoop_good mgm _ [] [] Hn) as (infos & out & -> & F).
    exists infos, out. split; [reflexivity|].
    clear -F Hn. induction F as [|node info nodes infos [o E] _ IH]; [constructor|].
    inversion Hn as [|? ? Hg Hr]; subst.
    constructor; [|now apply IH].
    destruct (parseVSInfo_good mgm node Hg)
      as (info' & o' & n & cfg & v & -> & Hc & Hu & E' & Hv & _).
    exists n, cfg, v, o'. rewrite E' in E. injection E as <- _. done.
Qed.

End Uptime.

Section UptimeExamples.
Import Utf8 Strings.

Lemma uptime_derivation_witness :
  parseUptime ("%2014:02:11%20" +:+ "up%20" +:+ "10" +:+ "%20days," +:+ "%20%203:02")
    = Ok ("10", []) /\
  (exists s, parseUptime "unknown" =
             Ok ("0", ["Wrong uptime:  [" +:+ s +:+ "]" +:+ newline])) /\
  (exists v out info,
     parseUptime (Sys.Uptime (Stat.Sys (NodeLSCfg.Stat
         (NodeLSCfg.mk (Stat.mk "site::rack1"
            (Sys.mk "1700000000" "5.1.22" "5.14.0" 1024 7 300
               "%2014:02:11%20up%2010%20days,%20%203:02" 2048 "5.5.5"))))))
       = Ok (v, out) /\
     parseVSInfo "5.1.22" (Some exampleNode) = Ok (info, out) /\
     VSInfo.Uptime info = v) /\
  (exists infos out,
     parseVSsInfo "5.1.22"
       (NodeLSResponse.mk "" [Some exampleNode; Some exampleNodeUnknown])
       = Ok (infos, out) /\
     Forall2 (fun node info =>
                exists n cfg v o,
                  node = Some n /\ NodeLS.Cfg n = Some cfg /\
                  parseUptime (Sys.Uptime (Stat.Sys (NodeLSCfg.Stat cfg)))
                    = Ok (v, o) /\
                  VSInfo.Uptime info = v)
             [Some exampleNode; Some exampleNodeUnknown] infos).
Proof.
  destruct uptime_derivation as (H1 & H2 & _ & H4 & H5).
  split; [|split; [|split]].
  - apply (H1 "%2014:02:11%20" "10" "%20%203:02").
    + intros i Hi.
      do 14 (destruct i as [|i]; [vm_compute; discriminate|]).
      vm_compute in Hi. lia.
    + intros i Hi.
      do 21 (destruct i as [|i]; [vm_compute; discriminate|]).
      vm_compute in Hi. lia.
    + intros i. do 3 (destruct i as [|i]; [vm_compute; discriminate|]).
      vm_compute. discriminate.
  - apply (H2 "unknown").
    intros i. do 8 (destruct i as [|i]; [vm_compute; discriminate|]).
    vm_compute. discriminate.
  - apply (H4 "5.1.22" exampleNode); reflexivity.
  - apply (H5 "5.1.22"
             (NodeLSResponse.mk "" [Some exampleNode; Some exampleNodeUnknown]));
      [reflexivity|].
    repeat constructor; (eexists _, _; repeat split; reflexivity).
Defined.

(** C7 as stated fails: this uptime string has the form
    [...up%20<N>%20days,...], with [N = 10] or, reading it from the first
    marker, with [N = at%2010:00%20up%2010]; the projector derives the
    text between the first two [up%20], which is neither. *)
Lemma uptime_first_marker_wins :
  "startup%20at%2010:00%20up%2010%20days,%203:02"
    = "startup%20at%2010:00%20" +:+ "up%20" +:+ "10" +:+ "%20days," +:+ "%203:02" /\
  "startup%20at%2010:00%20up%2010%20days,%203:02"
    = "start" +:+ "up%20" +:+ "at%2010:00%20up%2010" +:+ "%20days," +:+ "%203:02" /\
  parseUptime "startup%20at%2010:00%20up%2010%20days,%203:02"
    = Ok ("at%2010:00%20", []) /\
  "at%2010:00%20" <> "10" /\
  "at%2010:00%20" <> "at%2010:00%20up%2010".
Proof.
  split; [reflexivity|]. split; [reflexivity|].
  split; [vm_compute; reflexivity|]. split; discriminate.
Qed.

End UptimeExamples.

(** * The namespace parser and the process runner *)

Section Namespace.

(** While no activity record has been built, a row appends one exactly
    when it is a global rollup row with a [cmd] key and a rate that is
    not ["0.00"]. *)
Lemma nsRow_activity_fresh (kv : gmap string string) (st : NSState) :
  nsactinfo st = None ->
  nsactinfos (nsRow kv st) =
  (nsactinfos st ++ if activityRow kv then [nsActivityInfoOf kv] else [])%list.
Proof.
  intros H. unfold nsRow, activityRow.
  destruct (String.eqb (mapIndex kv "uid") "all" &&
            String.eqb (mapIndex kv "gid") "all"); cbn [andb];
    [|cbn; now rewrite H, app_nil_r].
  destruct (mapHas kv "cmd"); cbn [andb].
  - destruct (String.eqb (mapIndex kv "5s") "0.00" && _ && _ && _);
      cbn; [now rewrite H, app_nil_r | reflexivity].
  - destruct (Nat.leb (size kv) 3); cbn; now rewrite H, app_nil_r.
Qed.

(** Once a record has been built, every row that assigns none appends
    the previous one again. *)
Lemma nsRow_activity_stale (kv : gmap string string) (st : NSState)
    (a : NSActivityInfo.t) :
  nsactinfo st = Some a -> activityRow kv = false ->
  nsactinfos (nsRow kv st) = (nsactinfos st ++ [a])%list.
Proof.
  intros H. unfold nsRow, activityRow.
  destruct (String.eqb (mapIndex kv "uid") "all" &&
            String.eqb (mapIndex kv "gid") "all"); cbn [andb];
    [|cbn; now rewrite H].
  destruct (mapHas kv "cmd"); cbn [andb].
  - destruct (String.eqb (mapIndex kv "5s") "0.00" && _ && _ && _);
      cbn; [now rewrite H | done].
  - destruct (Nat.leb (size kv) 3); cbn; now rewrite H.
Qed.

(** A row that fails the guards of the statistics branch leaves [nsinfo]
    as it was, and appends it again when it is set. *)
Lemma nsRow_record_kept (kv : gmap string string) (st : NSState) :
  recordRow kv = false ->
  nsinfo (nsRow kv st) = nsinfo st /\
  nsinfos (nsRow kv st) = (nsinfos st ++ option_list (nsinfo st))%list.
Proof.
  unfold nsRow, recordRow.
  destruct (String.eqb (mapIndex kv "uid") "all" &&
            String.eqb (mapIndex kv "gid") "all"); cbn [andb negb].
  - destruct (mapHas kv "cmd"); cbn [andb negb].
    + intros _.
      destruct (String.eqb (mapIndex kv "5s") "0.00" && _ && _ && _);
        cbn; destruct (nsinfo st); cbn; now rewrite ?app_nil_r.
    + intros ->. cbn. destruct (nsinfo st); cbn; now rewrite ?app_nil_r.
  - intros _. cbn. destruct (nsinfo st); cbn; now rewrite ?app_nil_r.
Qed.

(** C2, on the code.  Taken alone, the row Open (global rollup, one rate
    not "0.00") gives one activity record, and the all-zero global row
    Close and the per-user row give none.  Put behind the row Open, each
    of these two rows adds a copy of the Open record to the activity
    sequence: three records come back for one emitting row. *)
Theorem ns_activity_row_repeated :
  parseNSsInfo (nsRaw [rowOpen]) = Ok ([], [recOpen]) /\
  parseNSsInfo (nsRaw [rowClose]) = Ok ([], []) /\
  parseNSsInfo (nsRaw [rowUser]) = Ok ([], []) /\
  parseNSsInfo (nsRaw [rowOpen; rowClose; rowUser])
    = Ok ([], [recOpen; recOpen; recOpen]).
Proof. split; [|split; [|split]]; vm_compute; reflexivity. Qed.

(** C5, on the code.  Taken alone, the three-key global row gives one
    namespace record, and the row with a [cmd] key, the global row with
    four keys and the per-user row give none.  Put behind the three-key
    row, each of them adds a copy of its record to the statistics
    sequence: four records come back for one emitting row. *)
Theorem ns_record_row_repeated :
  parseNSsInfo (nsRaw [rowFiles]) = Ok ([recFiles], []) /\
  parseNSsInfo (nsRaw [rowClose]) = Ok ([], []) /\
  parseNSsInfo (nsRaw [rowBoot]) = Ok ([], []) /\
  parseNSsInfo (nsRaw [rowUser]) = Ok ([], []) /\
  parseNSsInfo (nsRaw [rowFiles; rowClose; rowBoot; rowUser])
    = Ok ([recFiles; recFiles; recFiles; recFiles], []).
Proof. split; [|split; [|split; [|split]]]; vm_compute; reflexivity. Qed.

End Namespace.

Section Execute.

(** C6, on the code.  When the subprocess exits with status 2, the
    revision under [eosclient/eos.go] returns the not-found error
    [api.NewError(api.StorageNotFoundErrorCode)]; the other revision
    returns the placeholder [fmt.Errorf("error: FIXME")] in its place.
    Neither is the exit error of the run.  For every other exit status
    the exit error of the run is returned as it is, and in every case,
    success included, both captured texts are returned. *)
Theorem execute_classifies_exit_status (out err : string) :
  (execute (mkRun out err (Some (ExitError (Some 2%Z))))
     = (out, err, Some (ErrorString "error: FIXME")) /\
   execute_api (mkRun out err (Some (ExitError (Some 2%Z))))
     = (out, err, Some (ApiError StorageNotFoundErrorCode)) /\
   isExitError (ErrorString "error: FIXME") = false /\
   isExitError (ApiError StorageNotFoundErrorCode) = false) /\
  (forall status : Z, status <> 2%Z ->
     execute (mkRun out err (Some (ExitError (Some status))))
       = (out, err, Some (ExitError (Some status))) /\
     execute_api (mkRun out err (Some (ExitError (Some status))))
       = (out, err, Some (ExitError (Some status)))) /\
  (forall e : option error,
     (execute (mkRun out err e)).1 = (out, err) /\
     (execute_api (mkRun out err e)).1 = (out, err)) /\
  execute (mkRun out err None) = (out, err, None) /\
  execute_api (mkRun out err None) = (out, err, None).
Proof.
  split; [repeat split|]. split; [|split; [|split; reflexivity]].
  - intros status Hs. unfold execute, execute_api, executeWith. cbn.
    destruct (Z.eqb_spec status 2); [done | split; reflexivity].
  - intros e. split; reflexivity.
Qed.

Lemma execute_classifies_exit_status_witness :
  execute (mkRun "out" "err" (Some (ExitError (Some 1%Z))))
    = ("out", "err", Some (ExitError (Some 1%Z))) /\
  execute_api (mkRun "out" "err" (Some (ExitError (Some 1%Z))))
    = ("out", "err", Some (ExitError (Some 1%Z))).
Proof.
  destruct (execute_classifies_exit_status "out" "err") as (_ & H & _).
  apply (H 1%Z). discriminate.
Defined.

End Execute.

(** * Further properties of the tokenizer *)

Section TokenizerMore.
Import Utf8 Unicode Strings.

(** X1.  The tokenizer either returns a map or panics at [x[1]]. *)
Theorem getMap_outcome (line : string) :
  ((exists m, getMap line = Ok m) <-> Forall wellFormed (items line)) /\
  (getMap line = Panic (IndexOutOfRange 1 1) <-> ~ Forall wellFormed (items line)) /\
  (forall e, getMap line <> Err e) /\
  (forall p, getMap line = Panic p -> p = IndexOutOfRange 1 1).
Proof.
  unfold getMap.
  assert (Hdec : forall it, Decision (wellFormed it))
    by (intros it; unfold wellFormed; apply _).
  destruct (decide (Forall wellFormed (items line))) as [H|H].
  - rewrite (fillMap_ok _ _ H).
    repeat split; try done; eauto.
  - rewrite (fillMap_malformed _ _ H).
    repeat split; try done. intros [m Hm]. done.
    intros p [= <-]. done.
Qed.

Lemma foldl_insert_last (its : list string) (k : string) :
  foldl (fun acc item => <[itemKey item := itemValue item]> acc)
        (∅ : gmap string string) its !! k
  = itemValue <$> last (filter (fun it => itemKey it = k) its).
Proof.
  induction its as [|it its IH] using rev_ind; [reflexivity|].
  rewrite foldl_app, filter_app. cbn [foldl].
  destruct (decide (itemKey it = k)) as [E|E].
  - rewrite filter_cons_True, filter_nil by done.
    rewrite last_snoc. cbn. rewrite E. apply lookup_insert_eq.
  - rewrite filter_cons_False, filter_nil, app_nil_r by done.
    rewrite lookup_insert_ne by done. exact IH.
Qed.

(** X2.  Last key wins, and neither keys nor values hold a [=]. *)
Theorem getMap_last_key_wins (line : string) :
  Forall wellFormed (items line) ->
  exists m, getMap line = Ok m /\
    (forall k, m !! k =
       itemValue <$> last (filter (fun it => itemKey it = k) (items line))) /\
    (forall k v, m !! k = Some v ->
       hasByte "=" k = false /\ hasByte "=" v = false).
Proof.
  intros H. eexists. split; [unfold getMap; now apply fillMap_ok|].
  split; [apply foldl_insert_last|].
  intros k v. rewrite foldl_insert_last.
  destruct (last _) as [it|] eqn:E; [|done]. intros [= <-].
  apply last_Some_elem_of, list_elem_of_filter in E as [<- _].
  split; apply hasByte_before.
Qed.

Lemma getMap_last_key_wins_witness :
  exists m, getMap "a=1 b=2 a=3=4" = Ok m /\
    (forall k, m !! k =
       itemValue <$> last (filter (fun it => itemKey it = k) (items "a=1 b=2 a=3=4"))) /\
    (forall k v, m !! k = Some v ->
       hasByte "=" k = false /\ hasByte "=" v = false).
Proof.
  apply (getMap_last_key_wins "a=1 b=2 a=3=4").
  vm_compute. repeat constructor.
Defined.

Lemma f_plain (r : rune) :
  In_ r Quotation_Mark = false -> f 0%N r = (IsSpace r, 0%N).
Proof.
  intros H. unfold f.
  destruct (N.eqb_spec r 0) as [->|_]; [reflexivity|]. cbn [N.eqb negb].
  now rewrite H.
Qed.

Lemma fieldsLoop_spaces (rs : list (rune * string)) :
  Forall (fun c => IsSpace c.1 = true) rs -> fieldsLoop f 0%N None rs = [].
Proof.
  induction 1 as [|[r b] rs Hr _ IH]; [reflexivity|].
  rewrite fieldsLoop_cons, f_space by exact Hr. exact IH.
Qed.

(** X3.  A line of white space only gives the empty map. *)
Theorem getMap_blank (line : string) :
  Forall (fun c => IsSpace c.1 = true) (range line) ->
  items line = [] /\ getMap line = Ok ∅.
Proof.
  intros H. assert (E : items line = []) by now apply fieldsLoop_spaces.
  split; [exact E|]. unfold getMap. now rewrite E.
Qed.

Lemma getMap_blank_witness :
  items "   " = [] /\ getMap "   " = Ok ∅.
Proof.
  apply (getMap_blank "   ").
  assert (E : range "   " = [(32%N, " "); (32%N, " "); (32%N, " ")])
    by (vm_compute; reflexivity).
  rewrite E. repeat constructor.
Defined.

Lemma fieldsLoop_plain (rs : list (rune * string))
    (open : option (list (rune * string))) :
  Forall (fun c => isQuote c = false) rs ->
  (forall cur, open = Some cur ->
     cur <> [] /\ Forall (fun c => notSpace c = true) cur) ->
  exists spans : list (list (rune * string)),
    fieldsLoop f 0%N (bytesOf <$> open) rs = map bytesOf spans /\
    Forall (fun sp => sp <> [] /\ Forall (fun c => notSpace c = true) sp) spans /\
    concat spans = (default [] open ++ filter notSpace rs)%list.
Proof.
  intros H; revert open; induction H as [|[r b] rs Hr _ IH]; intros open Ho.
  - destruct open as [cur|].
    + exists [cur]. split; [reflexivity|]. split; [|cbn; now rewrite !app_nil_r].
      constructor; [now apply Ho | constructor].
    + exists []. split; [reflexivity|]. split; [constructor | reflexivity].
  - rewrite fieldsLoop_cons, f_plain by exact Hr. cbn [fst snd].
    destruct (IsSpace r) eqn:Esp.
    + destruct (IH None) as (spans & Hs & Hg & Hc); [done|].
      rewrite filter_cons_False
        by (unfold notSpace; cbn [fst]; rewrite Esp; intros []).
      destruct open as [cur|]; cbn [fmap option_fmap option_map from_option].
      * exists (cur :: spans). split; [cbn; now rewrite <- Hs|].
        split; [constructor; [now apply Ho | exact Hg]|].
        cbn [concat]. rewrite Hc. reflexivity.
      * exists spans. split; [exact Hs|]. split; [exact Hg | exact Hc].
    + assert (Hn : notSpace (r, b) = true) by (unfold notSpace; cbn; now rewrite Esp).
      destruct (IH (Some (default [] open ++ [(r, b)])%list))
        as (spans & Hs & Hg & Hc).
      { intros cur [= <-]. split; [now destruct (default [] open)|].
        apply Forall_app. split; [|now repeat constructor].
        destruct open as [cur|]; [now apply Ho | constructor]. }
      exists spans. split; [|split; [exact Hg|]].
      * rewrite <- Hs. f_equal. destruct open as [cur|]; cbn.
        -- now rewrite bytesOf_app, bytesOf_one.
        -- now rewrite app_nil_r_s.
      * rewrite Hc. rewrite filter_cons_True by (now rewrite Hn).
        unfold default; cbn [from_option id]. now rewrite <- app_assoc.
Qed.


Lemma rangeFuel_chunks (n : nat) (s : string) :
  Forall (fun c : rune * string => c.2 <> "") (rangeFuel n s).
Proof.
  revert s; induction n as [|n IH]; intros [|c s]; try constructor.
  cbn [rangeFuel]. pose proof (decode_width c s) as Hw.
  destruct (DecodeRuneInString (String c s)) as [r w]. cbn [snd] in Hw.
  constructor; [|apply IH]. cbn. destruct w; [lia | done].
Qed.

Lemma fieldsLoop_nonempty (rs : list (rune * string)) (st : rune)
    (start : option string) :
  Forall (fun c : rune * string => c.2 <> "") rs ->
  (forall cur, start = Some cur -> cur <> "") ->
  Forall (fun item => item <> "") (fieldsLoop f st start rs).
Proof.
  intros H; revert st start; induction H as [|[r b] rs Hb _ IH]; intros st start Hs.
  - destruct start as [cur|]; repeat constructor. now apply Hs.
  - rewrite fieldsLoop_cons. destruct (f st r).1.
    + apply Forall_app. split; [|now apply IH].
      destruct start as [cur|]; repeat constructor. now apply Hs.
    + apply IH. intros cur [= <-]. cbn in Hb.
      destruct start as [c0|]; cbn; [|exact Hb].
      destruct c0; [now destruct (Hs "") | done].
Qed.


(** X5.  No field is empty. *)
Theorem items_nonempty (line : string) :
  Forall (fun item => item <> "") (items line).
Proof. apply fieldsLoop_nonempty; [apply rangeFuel_chunks | done]. Qed.

Lemma fieldsLoop_last_open (rs : list (rune * string)) (q : rune) (cur : string) :
  q <> 0%N -> Forall (fun c => c.1 <> q) rs ->
  fieldsLoop f q (Some cur) rs = [cur +:+ bytesOf rs].
Proof.
  intros Hq H. rewrite <- (app_nil_r rs) at 1.
  now rewrite fieldsLoop_quoted.
Qed.

Lemma fieldsLoop_unclosed (pre rest : list (rune * string)) (q : rune)
    (qb : string) (st : rune) (start : option string) :
  In_ q Quotation_Mark = true ->
  quoteAfter st pre = 0%N ->
  Forall (fun c => c.1 <> q) rest ->
  exists a,
    last (fieldsLoop f st start (pre ++ (q, qb) :: rest)%list)
    = Some (a +:+ qb +:+ bytesOf rest).
Proof.
  intros Hq Hst Hrest. pose proof (isQuote_nonzero q Hq) as Hq0.
  revert st start Hst; induction pre as [|[r b] pre IH]; intros st start Hst.
  - cbn in Hst. subst st. cbn [app].
    rewrite fieldsLoop_cons, f_open by done. cbn [fst snd].
    rewrite fieldsLoop_last_open by done.
    exists (default "" start). destruct start as [cur|]; cbn;
      now rewrite ?app_assoc_s.
  - cbn [app]. rewrite fieldsLoop_cons.
    change (quoteAfter (f st r).2 pre = 0%N) in Hst.
    destruct (f st r).1.
    + destruct (IH (f st r).2 None Hst) as (a & E).
      exists a. rewrite last_app, E. reflexivity.
    + apply IH. exact Hst.
Qed.

(** X6.  A quotation mark that is opened and never closed takes the rest of
    the line, white space included, into the last field. *)
Theorem items_unclosed_quote (line : string)
    (pre rest : list (rune * string)) (q : rune) (qb : string) :
  range line = (pre ++ (q, qb) :: rest)%list ->
  isQuote (q, qb) = true ->
  quoteAfter 0%N pre = 0%N ->
  Forall (fun c => c.1 <> q) rest ->
  exists a, last (items line) = Some (a +:+ qb +:+ bytesOf rest).
Proof.
  intros Hline Hq Hpre Hrest. unfold items, FieldsFunc. rewrite Hline.
  now apply fieldsLoop_unclosed.
Qed.

Lemma items_unclosed_quote_witness :
  exists a, last (items ("k=" +:+ dquote +:+ "a b"))
            = Some (a +:+ dquote +:+ bytesOf [(97%N, "a"); (32%N, " "); (98%N, "b")]).
Proof.
  apply (items_unclosed_quote ("k=" +:+ dquote +:+ "a b")
           [(107%N, "k"); (61%N, "=")] [(97%N, "a"); (32%N, " "); (98%N, "b")]
           34%N dquote).
  - vm_compute. reflexivity.
  - vm_compute. reflexivity.
  - vm_compute. reflexivity.
  - repeat constructor; discriminate.
Defined.

End TokenizerMore.

(** * Further properties of the listing parsers *)

Section ListingMore.
Import Utf8 Unicode Strings.

Lemma lineOK_dec (rl : string) : Decision (lineOK rl).
Proof.
  unfold lineOK. apply Forall_dec. intros it. unfold wellFormed. apply _.
Qed.

Lemma lineOK_empty : lineOK "".
Proof. unfold lineOK. constructor. Qed.

Lemma getMap_lineOK (rl : string) :
  lineOK rl -> exists kv, getMap rl = Ok kv.
Proof. intros H. eexists. unfold getMap. now apply fillMap_ok. Qed.

Lemma getMap_not_lineOK (rl : string) :
  ~ lineOK rl -> getMap rl = Panic (IndexOutOfRange 1 1).
Proof. intros H. unfold getMap. now apply fillMap_malformed. Qed.

Lemma parseLines_malformed {A : Type} (proj : gmap string string -> A)
    (rawLines : list string) (infos : list A) :
  ~ Forall lineOK rawLines ->
  parseLines (fun rl => kv ← getMap rl; Ok (proj kv)) infos rawLines
  = Panic (IndexOutOfRange 1 1).
Proof.
  revert infos; induction rawLines as [|rl rest IH]; intros infos H.
  - destruct H. constructor.
  - cbn [parseLines]. destruct (String.eqb_spec rl "") as [->|Hne].
    + apply IH. intros Hr. apply H. constructor; [apply lineOK_empty | exact Hr].
    + destruct (lineOK_dec rl) as [Hok|Hbad].
      * destruct (getMap_lineOK rl Hok) as [kv ->]. cbn [mbind result_bind].
        apply IH. intros Hr. apply H. now constructor.
      * now rewrite (getMap_not_lineOK rl Hbad).
Qed.

Lemma parseLines_decided {A : Type} (proj : gmap string string -> A)
    (raw : string) :
  decidedByLines
    (parseLines (fun rl => kv ← getMap rl; Ok (proj kv)) [] (Split raw newline))
    raw.
Proof.
  unfold decidedByLines.
  assert (Hdec : Decision (Forall lineOK (Split raw newline)))
    by (apply Forall_dec; exact lineOK_dec).
  destruct Hdec as [H|H].
  - destruct (parseLines_ok (fun rl => kv ← getMap rl; Ok (proj kv))
                (Split raw newline) []) as (recs & -> & _).
    { eapply Forall_impl; [exact H|]. intros rl Hrl _. now apply parseOne_ok. }
    repeat split; try done; eauto.
  - rewrite (parseLines_malformed _ _ _ H).
    repeat split; try done. intros [a Ha]. done.
Qed.

Lemma parseNSsLoop_outcome (rawLines : list string) (st : NSState) :
  (Forall lineOK rawLines -> exists st', parseNSsLoop st rawLines = Ok st') /\
  (~ Forall lineOK rawLines ->
   parseNSsLoop st rawLines = Panic (IndexOutOfRange 1 1)).
Proof.
  revert st; induction rawLines as [|rl rest IH]; intros st.
  - split; [now eexists | intros H; destruct H; constructor].
  - cbn [parseNSsLoop]. destruct (String.eqb_spec rl "") as [->|Hne].
    + split.
      * intros H. apply IH. now inversion H.
      * intros H. apply IH. intros Hr. apply H.
        constructor; [apply lineOK_empty | exact Hr].
    + destruct (lineOK_dec rl) as [Hok|Hbad].
      * destruct (getMap_lineOK rl Hok) as [kv ->]. cbn [mbind result_bind].
        split.
        -- intros H. apply IH. now inversion H.
        -- intros H. apply IH. intros Hr. apply H. now constructor.
      * rewrite (getMap_not_lineOK rl Hbad).
        split; [|done]. intros H. now inversion H.
Qed.

(** X7.  Every parser of line-oriented output returns a value exactly when
    the tokenizer accepts every line, and panics otherwise. *)
Theorem parsers_decided_by_lines (raw : string) :
  decidedByLines (parseNodesInfo raw) raw /\
  decidedByLines (parseSpacesInfo raw) raw /\
  decidedByLines (parseGroupsInfo raw) raw /\
  decidedByLines (parseFSsInfo raw) raw /\
  decidedByLines (parseNSsInfo raw) raw.
Proof.
  split; [apply parseLines_decided|].
  split; [apply parseLines_decided|].
  split; [apply parseLines_decided|].
  split; [apply parseLines_decided|].
  unfold decidedByLines, parseNSsInfo.
  assert (Hdec : Decision (Forall lineOK (Split raw newline)))
    by (apply Forall_dec; exact lineOK_dec).
  destruct (parseNSsLoop_outcome (Split raw newline) (mkNS None None [] []))
    as [H1 H2].
  destruct Hdec as [H|H].
  - destruct (H1 H) as [st' ->]. cbn [mbind result_bind].
    repeat split; try done; eauto.
  - rewrite (H2 H). cbn [mbind result_bind].
    repeat split; try done. intros [a Ha]. done.
Qed.

Lemma length_after (c : ascii) (s : string) :
  String.length (after c s) <= String.length s.
Proof.
  induction s as [|d s IH]; simpl; [lia|].
  destruct (Ascii.eqb d c); lia.
Qed.

Lemma hasByte_app_l (c : ascii) (a b : string) :
  hasByte c a = true -> hasByte c (a +:+ b) = true.
Proof.
  induction a as [|d a IH]; simpl; [done|].
  destruct (Ascii.eqb d c); [done | exact IH].
Qed.

Lemma before_app_l (c : ascii) (a b : string) :
  hasByte c a = true -> before c (a +:+ b) = before c a.
Proof.
  induction a as [|d a IH]; simpl; [done|].
  destruct (Ascii.eqb d c); [done|]. intros H. now rewrite IH.
Qed.

Lemma after_app_l (c : ascii) (a b : string) :
  hasByte c a = true -> after c (a +:+ b) = after c a +:+ b.
Proof.
  induction a as [|d a IH]; simpl; [done|].
  destruct (Ascii.eqb d c); [done | exact IH].
Qed.

(** Splitting at one byte distributes over a join at that byte. *)
Lemma Split_byte_join (c : ascii) (a b : string) :
  Split (a +:+ String c b) (String c "")
  = (Split a (String c "") ++ Split b (String c ""))%list.
Proof.
  remember (String.length a) as n eqn:Hn.
  revert a Hn; induction n as [n IH] using lt_wf_ind; intros a Hn.
  destruct (hasByte c a) eqn:E.
  - assert (Hc : hasByte c (a +:+ String c b) = true) by now apply hasByte_app_l.
    rewrite (Split_byte c _ Hc), (Split_byte c a E).
    rewrite before_app_l, after_app_l by exact E.
    cbn [app]. f_equal.
    apply (IH (String.length (after c a))); [|reflexivity].
    subst n. pose proof (f_equal String.length (before_after c a E)) as Hl.
    rewrite length_app in Hl. simpl in Hl. lia.
  - rewrite (Split_byte_whole c a E).
    assert (Hc : hasByte c (a +:+ String c b) = true).
    { clear -E. induction a as [|d a IH]; simpl in *.
      - now rewrite Ascii.eqb_refl.
      - destruct (Ascii.eqb d c); [done | now apply IH]. }
    rewrite (Split_byte c _ Hc), before_app, after_app by exact E.
    reflexivity.
Qed.

Lemma parseLines_acc {A : Type} (parseOne : string -> result A)
    (rawLines : list string) (infos : list A) :
  parseLines parseOne infos rawLines =
  (recs ← parseLines parseOne [] rawLines; Ok (infos ++ recs)%list).
Proof.
  revert infos; induction rawLines as [|rl rest IH]; intros infos.
  - cbn. now rewrite app_nil_r.
  - cbn [parseLines]. destruct (String.eqb rl ""); [apply IH|].
    destruct (parseOne rl) as [a|e|p]; cbn [mbind result_bind]; try done.
    rewrite (IH (infos ++ [a])%list), (IH ([] ++ [a])%list).
    destruct (parseLines parseOne [] rest); cbn [mbind result_bind]; try done.
    now rewrite <- app_assoc.
Qed.

Lemma parseLines_app {A : Type} (parseOne : string -> result A)
    (l1 l2 : list string) :
  parseLines parseOne [] (l1 ++ l2)%list =
  (r1 ← parseLines parseOne [] l1;
   r2 ← parseLines parseOne [] l2;
   Ok (r1 ++ r2)%list).
Proof.
  induction l1 as [|rl rest IH].
  - cbn [app parseLines mbind result_bind].
    destruct (parseLines parseOne [] l2); reflexivity.
  - cbn [app parseLines]. destruct (String.eqb rl ""); [exact IH|].
    destruct (parseOne rl) as [a|e|p]; cbn [mbind result_bind]; try done.
    rewrite (parseLines_acc _ (rest ++ l2)%list), (parseLines_acc _ rest), IH.
    destruct (parseLines parseOne [] rest); cbn [mbind result_bind]; try done.
    destruct (parseLines parseOne [] l2); cbn [mbind result_bind]; done.
Qed.

(** X8.  The listing of two texts joined by a line break is the listing of
    the first followed by the listing of the second; a panic in either
    is the panic of the whole. *)
Theorem listing_of_joined_texts (a b : string) :
  parseNodesInfo (a +:+ newline +:+ b) =
    (ra ← parseNodesInfo a; rb ← parseNodesInfo b; Ok (ra ++ rb)%list) /\
  parseSpacesInfo (a +:+ newline +:+ b) =
    (ra ← parseSpacesInfo a; rb ← parseSpacesInfo b; Ok (ra ++ rb)%list) /\
  parseGroupsInfo (a +:+ newline +:+ b) =
    (ra ← parseGroupsInfo a; rb ← parseGroupsInfo b; Ok (ra ++ rb)%list) /\
  parseFSsInfo (a +:+ newline +:+ b) =
    (ra ← parseFSsInfo a; rb ← parseFSsInfo b; Ok (ra ++ rb)%list).
Proof.
  unfold parseNodesInfo, parseSpacesInfo, parseGroupsInfo, parseFSsInfo.
  change (a +:+ newline +:+ b) with (a +:+ String "010" b).
  change newline with (String "010" "").
  rewrite Split_byte_join.
  split; [|split; [|split]]; apply parseLines_app.
Qed.

(** X9.  A line that is not empty but holds white space only is not skipped:
    it gives a record all of whose fields are empty. *)
Theorem listing_of_blank_line (line : string) :
  line <> "" -> hasByte "010" line = false ->
  Forall (fun c => IsSpace c.1 = true) (range line) ->
  parseNodesInfo line = Ok [nodeInfoOf ∅] /\
  parseSpacesInfo line = Ok [spaceInfoOf ∅] /\
  parseGroupsInfo line = Ok [groupInfoOf ∅] /\
  parseFSsInfo line = Ok [fsInfoOf ∅] /\
  Forall (fun fk => fk.1 (nodeInfoOf ∅) = "") nodeFields /\
  Forall (fun fk => fk.1 (spaceInfoOf ∅) = "") spaceFields /\
  Forall (fun fk => fk.1 (groupInfoOf ∅) = "") groupFields /\
  Forall (fun fk => fk.1 (fsInfoOf ∅) = "") fsFields.
Proof.
  intros Hne Hnl Hsp.
  assert (Hm : getMap line = Ok ∅).
  { unfold getMap. replace (items line) with (@nil string); [reflexivity|].
    symmetry. now apply fieldsLoop_spaces. }
  unfold parseNodesInfo, parseSpacesInfo, parseGroupsInfo, parseFSsInfo.
  change newline with (String "010" "").
  rewrite (Split_byte_whole "010" line Hnl).
  cbn [parseLines]. destruct (String.eqb_spec line "") as [|_]; [done|].
  unfold parseNodeInfo, parseSpaceInfo, parseGroupInfo, parseFSInfo.
  rewrite Hm. cbn [mbind result_bind app].
  repeat (split; [reflexivity|]).
  split; [|split; [|split]]; repeat constructor.
Qed.

Lemma listing_of_blank_line_witness :
  parseNodesInfo "  " = Ok [nodeInfoOf ∅] /\
  parseSpacesInfo "  " = Ok [spaceInfoOf ∅] /\
  parseGroupsInfo "  " = Ok [groupInfoOf ∅] /\
  parseFSsInfo "  " = Ok [fsInfoOf ∅] /\
  Forall (fun fk => fk.1 (nodeInfoOf ∅) = "") nodeFields /\
  Forall (fun fk => fk.1 (spaceInfoOf ∅) = "") spaceFields /\
  Forall (fun fk => fk.1 (groupInfoOf ∅) = "") groupFields /\
  Forall (fun fk => fk.1 (fsInfoOf ∅) = "") fsFields.
Proof.
  apply (listing_of_blank_line "  "); [discriminate | reflexivity |].
  assert (E : range "  " = [(32%N, " "); (32%N, " ")])
    by (vm_compute; reflexivity).
  rewrite E. repeat constructor.
Defined.

End ListingMore.

(** * Round trips *)

Section RoundTrip.
Import Utf8 Unicode Strings.

(** X10.  Projecting the mapping of a record gives the record back: the keys
    of each table are pairwise distinct. *)
Theorem projector_round_trip :
  (forall r, nodeInfoOf (fieldsMap nodeFields r) = r) /\
  (forall r, spaceInfoOf (fieldsMap spaceFields r) = r) /\
  (forall r, groupInfoOf (fieldsMap groupFields r) = r) /\
  (forall r, fsInfoOf (fieldsMap fsFields r) = r).
Proof.
  split; [|split; [|split]]; intros []; vm_compute; reflexivity.
Qed.

Local Abbreviation chunk := (fun c : ascii => (byteN c, String c "")).

Lemma bytes_app (a b : string) :
  list_ascii_of_string (a +:+ b)
  = (list_ascii_of_string a ++ list_ascii_of_string b)%list.
Proof. induction a as [|c a IH]; [reflexivity | simpl; now rewrite IH]. Qed.

Lemma solid_app (a b : string) : solid (a +:+ b) = solid a && solid b.
Proof.
  induction a as [|c a IH]; [reflexivity|]. simpl. rewrite IH.
  now rewrite andb_assoc.
Qed.

Lemma asciiOnly_app (a b : string) :
  asciiOnly (a +:+ b) = asciiOnly a && asciiOnly b.
Proof.
  induction a as [|c a IH]; [reflexivity|]. simpl. rewrite IH.
  now rewrite andb_assoc.
Qed.

Lemma solid_asciiOnly (s : string) : solid s = true -> asciiOnly s = true.
Proof.
  induction s as [|c s IH]; [done|]. simpl. unfold solidByte.
  rewrite !andb_true_iff. intros [[[H _] _] Hs]. split; [exact H | now apply IH].
Qed.

Lemma f_solid (c : ascii) : solidByte c = true -> f 0%N (byteN c) = (false, 0%N).
Proof.
  unfold solidByte. rewrite !andb_true_iff, !negb_true_iff.
  intros [[_ Hsp] Hq]. now rewrite f_plain, Hsp.
Qed.

Lemma fieldsLoop_solid (t : string) (rest : list (rune * string))
    (start : option string) :
  solid t = true ->
  fieldsLoop f 0%N start (map chunk (list_ascii_of_string t) ++ rest)%list =
  fieldsLoop f 0%N
    (match t with
     | EmptyString => start
     | _ => Some (default "" start +:+ t)
     end) rest.
Proof.
  revert start; induction t as [|c t IH]; intros start; [reflexivity|].
  simpl solid. rewrite andb_true_iff. intros [Hc Ht].
  cbn [list_ascii_of_string map app].
  rewrite fieldsLoop_cons, f_solid by exact Hc. cbn [fst snd].
  rewrite IH by exact Ht.
  destruct t as [|d t], start as [cur|]; cbn; try reflexivity.
  now rewrite app_assoc_s.
Qed.

Lemma fieldsLoop_joined (toks : list string) :
  Forall (fun t => solid t = true /\ t <> "") toks ->
  fieldsLoop f 0%N None
    (map chunk (list_ascii_of_string (String.concat " " toks))) = toks.
Proof.
  induction 1 as [|t ts [Ht Hne] Hts IH]; [reflexivity|].
  cbn [String.concat]. destruct ts as [|t2 ts].
  - rewrite <- (app_nil_r (map _ _)), fieldsLoop_solid by exact Ht.
    destruct t; [done | reflexivity].
  - rewrite !bytes_app, !map_app.
    rewrite fieldsLoop_solid by exact Ht.
    cbn [list_ascii_of_string map app].
    rewrite fieldsLoop_cons, (f_space (byteN " ")) by reflexivity.
    cbn [fst snd]. rewrite IH.
    destruct t; [done | reflexivity].
Qed.

Lemma asciiOnly_joined (toks : list string) :
  Forall (fun t => solid t = true /\ t <> "") toks ->
  asciiOnly (String.concat " " toks) = true.
Proof.
  induction 1 as [|t ts [Ht Hne] Hts IH]; [reflexivity|].
  cbn [String.concat]. destruct ts as [|t2 ts].
  - now apply solid_asciiOnly.
  - rewrite !asciiOnly_app, IH, solid_asciiOnly by exact Ht. reflexivity.
Qed.

(** Solid, non-empty tokens joined by single spaces are the fields of
    the joined line. *)
Lemma items_joined (toks : list string) :
  Forall (fun t => solid t = true /\ t <> "") toks ->
  items (String.concat " " toks) = toks.
Proof.
  intros H. unfold items, FieldsFunc.
  rewrite range_ascii by now apply asciiOnly_joined.
  now apply fieldsLoop_joined.
Qed.

Lemma plain_solid (s : string) : plain s = true -> solid s = true.
Proof. unfold plain. now rewrite andb_true_iff. Qed.

Lemma plain_no_sep (s : string) : plain s = true -> hasByte "=" s = false.
Proof. unfold plain. rewrite andb_true_iff, negb_true_iff. tauto. Qed.

Lemma token_solid (k v : string) :
  plain k = true -> plain v = true ->
  solid (k +:+ "=" +:+ v) = true /\ k +:+ "=" +:+ v <> "".
Proof.
  intros Hk Hv. split.
  - rewrite !solid_app, (plain_solid k Hk), (plain_solid v Hv). reflexivity.
  - destruct k; discriminate.
Qed.

Lemma token_wellFormed (k v : string) : wellFormed (k +:+ "=" +:+ v).
Proof.
  unfold wellFormed. induction k as [|c k IH]; [reflexivity|].
  simpl. now destruct (Ascii.eqb c "=").
Qed.

Lemma items_serialized (kvs : list (string * string)) :
  Forall (fun kv => plain kv.1 = true /\ plain kv.2 = true) kvs ->
  items (serialize kvs) = map (fun kv => kv.1 +:+ "=" +:+ kv.2) kvs.
Proof.
  intros H. unfold serialize. apply items_joined.
  apply Forall_map. eapply Forall_impl; [exact H|].
  intros [k v] [Hk Hv]. now apply token_solid.
Qed.

Lemma fillMap_tokens (kvs : list (string * string)) (m : gmap string string) :
  Forall (fun kv => plain kv.1 = true /\ plain kv.2 = true) kvs ->
  fillMap m (map (fun kv => kv.1 +:+ "=" +:+ kv.2) kvs) =
  Ok (foldl (fun m kv => <[kv.1 := kv.2]> m) m kvs).
Proof.
  intros H.
  rewrite fillMap_ok by (apply Forall_map, Forall_true; intros [k v]; apply token_wellFormed).
  f_equal. revert m.
  induction H as [|[k v] kvs [Hk Hv] _ IH]; intros m; [reflexivity|].
  cbn [map foldl fst snd] in *. rewrite IH.
  rewrite itemKey_app, itemValue_app by now apply plain_no_sep.
  now rewrite (before_whole "=" v) by now apply plain_no_sep.
Qed.

(** X11.  Tokenizing the line of a list of plain pairs gives the map that
    holds them, later pairs overriding earlier ones. *)
Theorem getMap_serialize (kvs : list (string * string)) :
  Forall (fun kv => plain kv.1 = true /\ plain kv.2 = true) kvs ->
  getMap (serialize kvs) = Ok (foldl (fun m kv => <[kv.1 := kv.2]> m) ∅ kvs).
Proof.
  intros H. unfold getMap.
  rewrite items_serialized by exact H.
  now apply fillMap_tokens.
Qed.

Lemma getMap_serialize_witness :
  getMap (serialize [("name", "default"); ("nofs", "4"); ("name", "spare")])
  = Ok (foldl (fun m kv => <[kv.1 := kv.2]> m) ∅
          [("name", "default"); ("nofs", "4"); ("name", "spare")]).
Proof.
  apply (getMap_serialize [("name", "default"); ("nofs", "4"); ("name", "spare")]).
  repeat constructor.
Defined.

Lemma solid_no_newline (s : string) :
  solid s = true -> hasByte "010" s = false.
Proof.
  induction s as [|c s IH]; [done|]. simpl. rewrite andb_true_iff.
  intros [Hc Hs]. destruct (Ascii.eqb_spec c "010") as [->|_]; [done|].
  now apply IH.
Qed.

Lemma joined_no_newline (toks : list string) :
  Forall (fun t => solid t = true /\ t <> "") toks ->
  hasByte "010" (String.concat " " toks) = false.
Proof.
  induction 1 as [|t ts [Ht Hne] Hts IH]; [reflexivity|].
  cbn [String.concat]. destruct ts as [|t2 ts].
  - now apply solid_no_newline.
  - pose proof (solid_no_newline t Ht) as Hn.
    clear -Hn IH. induction t as [|c t IHt]; simpl in *.
    + exact IH.
    + destruct (Ascii.eqb c "010"); [done | now apply IHt].
Qed.

Lemma joined_nonempty (toks : list string) :
  toks <> [] -> Forall (fun t => solid t = true /\ t <> "") toks ->
  String.concat " " toks <> "".
Proof.
  intros Hne H. destruct H as [|t ts [_ Ht] _]; [done|].
  cbn [String.concat]. destruct ts; [exact Ht|]. now destruct t.
Qed.

Lemma Split_joined_lines (lines : list string) :
  lines <> [] -> Forall (fun l => hasByte "010" l = false) lines ->
  Split (String.concat newline lines) newline = lines.
Proof.
  intros Hne H. induction H as [|l ls Hl Hls IH]; [done|].
  cbn [String.concat]. destruct ls as [|l2 ls].
  - now apply (Split_byte_whole "010").
  - change (l +:+ newline +:+ String.concat newline (l2 :: ls))
      with (l +:+ String "010" (String.concat newline (l2 :: ls))).
    change newline with (String "010" "") at 2.
    rewrite Split_byte_join, (Split_byte_whole "010" l Hl).
    cbn [app]. f_equal. now apply IH.
Qed.

Lemma parseLines_all {A : Type} (parseOne : string -> result A)
    (lines : list string) (recs infos : list A) :
  Forall2 (fun l r => l <> "" /\ parseOne l = Ok r) lines recs ->
  parseLines parseOne infos lines = Ok (infos ++ recs)%list.
Proof.
  intros H; revert infos; induction H as [|l r lines recs [Hl Hr] _ IH];
    intros infos.
  - cbn. now rewrite app_nil_r.
  - cbn [parseLines]. destruct (String.eqb_spec l "") as [|_]; [done|].
    rewrite Hr. cbn [mbind result_bind]. rewrite IH. now rewrite <- app_assoc.
Qed.

Section Generic.
Context {R : Type} (table : list ((R -> string) * string))
        (proj : gmap string string -> R).
Hypothesis proj_fields :
  forall r, proj (foldl (fun m kv => <[kv.1 := kv.2]> m) ∅ (fieldsList table r)) = r.
Hypothesis keys_plain : Forall (fun fk => plain fk.2 = true) table.
Hypothesis table_nonempty : table <> [].

Lemma line_round_trip (r : R) :
  Forall (fun fk => plain (fk.1 r) = true) table ->
  serialize (fieldsList table r) <> "" /\
  hasByte "010" (serialize (fieldsList table r)) = false /\
  (kv ← getMap (serialize (fieldsList table r)); Ok (proj kv)) = Ok r.
Proof.
  intros Hr.
  assert (Hp : Forall (fun kv : string * string =>
                         plain kv.1 = true /\ plain kv.2 = true)
                      (fieldsList table r)).
  { unfold fieldsList. apply Forall_map.
    rewrite Forall_forall in *. intros fk Hfk. split; cbn; auto. }
  assert (Ht : Forall (fun t => solid t = true /\ t <> "")
                 (map (fun kv : string * string => kv.1 +:+ "=" +:+ kv.2)
                      (fieldsList table r))).
  { apply Forall_map. eapply Forall_impl; [exact Hp|].
    intros [k v] [Hk Hv]. now apply token_solid. }
  split; [|split].
  - apply joined_nonempty; [|exact Ht].
    unfold fieldsList. destruct table; [done | discriminate].
  - now apply joined_no_newline.
  - unfold getMap. rewrite items_serialized, fillMap_tokens by exact Hp.
    cbn [mbind result_bind].
    now rewrite proj_fields.
Qed.

Lemma text_round_trip (rs : list R) :
  Forall (fun r => Forall (fun fk => plain (fk.1 r) = true) table) rs ->
  parseLines (fun rl => kv ← getMap rl; Ok (proj kv)) []
    (Split (String.concat newline
              (map (fun r => serialize (fieldsList table r)) rs)) newline)
  = Ok rs.
Proof.
  intros H. destruct rs as [|r0 rs0]; [reflexivity|].
  rewrite Split_joined_lines.
  - apply (parseLines_all _ _ (r0 :: rs0) []).
    apply Forall2_fmap_l, Forall_Forall2_diag.
    eapply Forall_impl; [exact H|]. intros r Hr.
    destruct (line_round_trip r Hr) as (H1 & _ & H3). now split.
  - discriminate.
  - apply Forall_map. eapply Forall_impl; [exact H|]. intros r Hr.
    now destruct (line_round_trip r Hr) as (_ & H2 & _).
Qed.

End Generic.

(** X12.  A text rendered from records with plain field values, one line per
    record and one [key=value] token per field, is listed back into
    exactly these records. *)
Theorem listing_round_trip :
  (forall rs, Forall (fun r => Forall (fun fk => plain (fk.1 r) = true) nodeFields) rs ->
     parseNodesInfo (String.concat newline
                       (map (fun r => serialize (fieldsList nodeFields r)) rs))
     = Ok rs) /\
  (forall rs, Forall (fun r => Forall (fun fk => plain (fk.1 r) = true) spaceFields) rs ->
     parseSpacesInfo (String.concat newline
                        (map (fun r => serialize (fieldsList spaceFields r)) rs))
     = Ok rs) /\
  (forall rs, Forall (fun r => Forall (fun fk => plain (fk.1 r) = true) groupFields) rs ->
     parseGroupsInfo (String.concat newline
                        (map (fun r => serialize (fieldsList groupFields r)) rs))
     = Ok rs) /\
  (forall rs, Forall (fun r => Forall (fun fk => plain (fk.1 r) = true) fsFields) rs ->
     parseFSsInfo (String.concat newline
                     (map (fun r => serialize (fieldsList fsFields r)) rs))
     = Ok rs).
Proof.
  split; [|split; [|split]]; intros rs H;
    (apply text_round_trip;
     [intros []; vm_compute; reflexivity
     | repeat constructor
     | discriminate
     | exact H]).
Qed.

Lemma listing_round_trip_witness :
  parseNodesInfo
    (String.concat newline
       (map (fun r => serialize (fieldsList nodeFields r))
          [NodeInfo.mk "a.cern.ch:1095" "online" "4" "10" "20" "30" "1" "2" "3"
             "0" "0" "300" "0.5" "0.25";
           NodeInfo.mk "b.cern.ch:1095" "offline" "" "" "" "" "" "" "" "" ""
             "" "" ""]))
  = Ok [NodeInfo.mk "a.cern.ch:1095" "online" "4" "10" "20" "30" "1" "2" "3"
          "0" "0" "300" "0.5" "0.25";
        NodeInfo.mk "b.cern.ch:1095" "offline" "" "" "" "" "" "" "" "" ""
          "" "" ""].
Proof.
  apply (proj1 listing_round_trip). repeat constructor.
Defined.

End RoundTrip.

(** * The client and its calls *)

Section ClientFacts.
Import Utf8 Strings.
Context {ZapLogger World : Type}.
Context (spawn : World -> Client.Cmd -> RunOutcome * World).
Context (Lookup : string -> result Client.User).
Context (Unmarshal : string -> result NodeLSResponse.t).

Local Abbreviation client := (Client.t ZapLogger).
Local Abbreviation url := (fun c : client => Client.URL _ (Client.opt _ c)).

Lemma execute_error (run : RunOutcome) (e : error) :
  runErr run = Some e ->
  exists e', execute run = (outBuf run, errBuf run, Some e').
Proof.
  intros H. unfold execute, executeWith. rewrite H.
  destruct e as [[s|]| | |]; eauto. destruct (s =? 2)%Z; eauto.
Qed.

Lemma execute_ok (run : RunOutcome) :
  runErr run = None -> execute run = (outBuf run, errBuf run, None).
Proof. intros H. unfold execute, executeWith. now rewrite H. Qed.

Lemma listAs_failsClosed {A : Type} (c : client) (what : string)
    (parse : string -> result (list A)) :
  failsClosed spawn Lookup (url c) what
    (fun username w => Client.listAs _ _ spawn Lookup c username what parse w).
Proof.
  unfold failsClosed, Client.listAs, Client.getUnixUser. split.
  - intros username w e ->. reflexivity.
  - intros username w u e -> H.
    unfold Client.execute, Client.Command. cbn [Client.Path Client.Args].
    fold (listCmd (url c) u what).
    destruct (spawn w (listCmd (url c) u what)) as [run w'].
    cbn [fst snd] in *. destruct (execute_error run e H) as [e' ->].
    now exists e'.
Qed.

(** X13.  The identity-bound listings fail closed. *)
Theorem listings_fail_closed (c : client) :
  failsClosed spawn Lookup (url c) "node"
    (Client.ListNode _ _ spawn Lookup c) /\
  failsClosed spawn Lookup (url c) "space"
    (Client.ListSpace _ _ spawn Lookup c) /\
  failsClosed spawn Lookup (url c) "group"
    (Client.ListGroup _ _ spawn Lookup c) /\
  failsClosed spawn Lookup (url c) "fs"
    (Client.ListFS _ _ spawn Lookup c).
Proof. split; [|split; [|split]]; apply listAs_failsClosed. Qed.


(** X15.  [ListVS] stops at the first step that fails: when the version call
    fails or prints no version line the node listing is not run, and a
    failed node listing, undecodable JSON or an error message in the
    document ends the call with an error. *)
Theorem ListVS_stops_at_first_failure (c : client) (w : World) :
  let run1 := (spawn w (plainCmd (url c) ["version"])).1 in
  let w1 := (spawn w (plainCmd (url c) ["version"])).2 in
  (forall e, runErr run1 = Some e ->
     exists e', Client.ListVS _ _ spawn Unmarshal c w = (Err e', w1)) /\
  (forall e, runErr run1 = None ->
     Client.findVersion (Strings.Split (outBuf run1) newline) = Err e ->
     Client.ListVS _ _ spawn Unmarshal c w = (Err e, w1)) /\
  (forall v, runErr run1 = None ->
     Client.findVersion (Strings.Split (outBuf run1) newline) = Ok v ->
     let run2 := (spawn w1 (plainCmd (url c) ["--json"; "node"; "ls"])).1 in
     let w2 := (spawn w1 (plainCmd (url c) ["--json"; "node"; "ls"])).2 in
     (forall e, runErr run2 = Some e ->
        exists e', Client.ListVS _ _ spawn Unmarshal c w = (Err e', w2)) /\
     (forall e, runErr run2 = None -> Unmarshal (outBuf run2) = Err e ->
        Client.ListVS _ _ spawn Unmarshal c w = (Err e, w2)) /\
     (forall resp, runErr run2 = None -> Unmarshal (outBuf run2) = Ok resp ->
        Client.ListVS _ _ spawn Unmarshal c w = (parseVSsInfo v resp, w2) /\
        (NodeLSResponse.ErrorMsg resp <> "" ->
         parseVSsInfo v resp = Err (ErrorString (NodeLSResponse.ErrorMsg resp))))).
Proof.
  cbn zeta. unfold Client.ListVS, Client.getEosMGMVersion, Client.execute,
    Client.Command. cbn [Client.Path Client.Args].
  fold (plainCmd (url c) ["version"]) (plainCmd (url c) ["--json"; "node"; "ls"]).
  destruct (spawn w (plainCmd (url c) ["version"])) as [run1 w1]. cbn [fst snd].
  split; [|split].
  - intros e He. destruct (execute_error run1 e He) as [e' ->]. now exists e'.
  - intros e He Hv. rewrite (execute_ok run1 He), Hv. reflexivity.
  - intros v He Hv. rewrite (execute_ok run1 He), Hv.
    destruct (spawn w1 (plainCmd (url c) ["--json"; "node"; "ls"])) as [run2 w2].
    cbn [fst snd]. split; [|split].
    + intros e He2. destruct (execute_error run2 e He2) as [e' ->]. now exists e'.
    + intros e He2 Hu. now rewrite (execute_ok run2 He2), Hu.
    + intros resp He2 Hu. rewrite (execute_ok run2 He2), Hu.
      split; [reflexivity|]. intros Hm. unfold parseVSsInfo.
      destruct (String.eqb_spec (NodeLSResponse.ErrorMsg resp) ""); done.
Qed.

Lemma before_app_no (ch : ascii) (a b : string) :
  hasByte ch a = false -> before ch (a +:+ b) = a +:+ before ch b.
Proof.
  induction a as [|d a IH]; simpl; [done|].
  destruct (Ascii.eqb d ch); [done|]. intros H. now rewrite IH.
Qed.

Lemma findVersion_line (t : string) :
  exists v tl,
    Split (before " " t) "EOS_SERVER_VERSION=" = v :: tl /\
    (s0 ← index (Split ("EOS_SERVER_VERSION=" +:+ t) " ") 0;
     index (Split s0 "EOS_SERVER_VERSION=") 1) = Ok v.
Proof.
  destruct (Split (before " " t) "EOS_SERVER_VERSION=") as [|v tl] eqn:Es;
    [now apply Split_nonempty in Es|].
  exists v, tl. split; [reflexivity|].
  rewrite (Split_byte_0 " "). cbn [mbind result_bind].
  rewrite before_app_no by reflexivity.
  rewrite (Split_cut _ _ 0); [|done|].
  - change (0 + String.length "EOS_SERVER_VERSION=")
      with (String.length "EOS_SERVER_VERSION=").
    now rewrite drop_app_length, Es.
  - apply (Index_first "" "EOS_SERVER_VERSION=" (before " " t)).
    intros i Hi. simpl in Hi. lia.
Qed.



End ClientFacts.

Section ClientExamples.
Import Utf8 Strings.

Lemma listings_fail_closed_witness :
  Client.ListGroup _ _ failingSpawn rootOnly (exampleClient "") "nobody" []
    = (Err (ErrorString "user: unknown user"), []) /\
  exists e',
    Client.ListGroup _ _ failingSpawn rootOnly (exampleClient "") "root" []
    = (Err e', (failingSpawn [] (listCmd "root://eos.example"
                                   (Client.mkUser "0" "0") "group")).2).
Proof.
  destruct (listings_fail_closed failingSpawn rootOnly (exampleClient ""))
    as (_ & _ & [H1 H2] & _).
  split.
  - apply H1. reflexivity.
  - apply (H2 "root" [] (Client.mkUser "0" "0") (ExitError (Some 1%Z)));
      reflexivity.
Defined.


Lemma ListVS_stops_at_first_failure_witness :
  exists e',
    Client.ListVS _ _ failingSpawn (fun _ => Err (ErrorString "json"))
      (exampleClient "") []
    = (Err e', [plainCmd "root://eos.example" ["version"]]).
Proof.
  destruct (ListVS_stops_at_first_failure failingSpawn
              (fun _ => Err (ErrorString "json")) (exampleClient "") [])
    as (H & _).
  apply (H (ExitError (Some 1%Z))). reflexivity.
Defined.

End ClientExamples.

Section OptionsFacts.
Import Utf8 Strings.
Context {ZapLogger : Type} (TempDir : string) (NewProduction : option ZapLogger).

Local Abbreviation init := (Client.init ZapLogger TempDir NewProduction).

(** X17.  [init] fills the unset fields and nothing else: a string field that
    is set and a logger that is set are kept, the binaries and the URL
    are never left empty, and a second [init] changes nothing. *)
Theorem init_fills_unset_fields (o : Client.Options ZapLogger) :
  init (init o) = init o /\
  (Client.EosBinary _ o <> "" -> Client.EosBinary _ (init o) = Client.EosBinary _ o) /\
  (Client.XrdcopyBinary _ o <> "" ->
   Client.XrdcopyBinary _ (init o) = Client.XrdcopyBinary _ o) /\
  (Client.URL _ o <> "" -> Client.URL _ (init o) = Client.URL _ o) /\
  (Client.CacheDirectory _ o <> "" ->
   Client.CacheDirectory _ (init o) = Client.CacheDirectory _ o) /\
  (forall l, Client.Logger _ o = Some l -> Client.Logger _ (init o) = Some l) /\
  Client.EosBinary _ (init o) <> "" /\
  Client.XrdcopyBinary _ (init o) <> "" /\
  Client.URL _ (init o) <> "".
Proof.
  assert (Hd : forall s d : string,
             (if String.eqb (if String.eqb s "" then d else s) "" then d
              else (if String.eqb s "" then d else s))
             = (if String.eqb s "" then d else s)).
  { intros s d. destruct (String.eqb_spec s "") as [->|Hs].
    - now destruct (String.eqb_spec d "").
    - now destruct (String.eqb_spec s ""). }
  assert (Hk : forall s d : string,
             s <> "" -> (if String.eqb s "" then d else s) = s).
  { intros s d Hs. now destruct (String.eqb_spec s ""). }
  assert (Hn : forall s d : string,
             d <> "" -> (if String.eqb s "" then d else s) <> "").
  { intros s d Hd'. now destruct (String.eqb_spec s ""). }
  destruct o as [eb xb u cd el lg]. unfold Client.init. cbn.
  split; [|split; [|split; [|split; [|split; [|split; [|split; [|split]]]]]]].
  - rewrite !Hd. f_equal. destruct lg; [reflexivity | now destruct NewProduction].
  - apply Hk.
  - apply Hk.
  - apply Hk.
  - apply Hk.
  - now intros l ->.
  - now apply Hn.
  - now apply Hn.
  - now apply Hn.
Qed.

End OptionsFacts.

Lemma init_fills_unset_fields_witness :
  Client.EosBinary _
    (Client.init unit "/tmp" None
       (Client.mkOptions unit "/opt/eos/bin/eos" "" "" "" false None))
  = "/opt/eos/bin/eos".
Proof.
  apply (proj1 (proj2 (init_fills_unset_fields "/tmp" None
           (Client.mkOptions unit "/opt/eos/bin/eos" "" "" "" false None)))).
  discriminate.
Defined.

(** * Further properties of the version and namespace parsers *)

Section VersionMore.
Import Utf8 Unicode Strings.

(** X18.  When the document carries no error message and every node is
    usable, the projector returns one record per node, in the order of
    the document and without dropping repeated hosts; each record takes
    its host name and port from the node's hostport and carries the
    version of the management node. *)
Theorem parseVSsInfo_one_record_per_node (mgmVersion : string)
    (nodeLSResponse : NodeLSResponse.t) :
  NodeLSResponse.ErrorMsg nodeLSResponse = "" ->
  Forall goodNode (NodeLSResponse.Result nodeLSResponse) ->
  exists infos out,
    parseVSsInfo mgmVersion nodeLSResponse = Ok (infos, out) /\
    Forall2 (fun node info =>
               exists n, node = Some n /\
                 VSInfo.EOSmgm info = mgmVersion /\
                 VSInfo.Hostname info = before ":" (NodeLS.HostPort n) /\
                 VSInfo.Port info = before ":" (after ":" (NodeLS.HostPort n)))
            (NodeLSResponse.Result nodeLSResponse) infos.
Proof.
  intros Hm Hn. unfold parseVSsInfo. rewrite Hm. cbn [String.eqb negb].
  destruct (parseVSsLoop_good mgmVersion _ [] [] Hn) as (infos & out & -> & F).
  exists infos, out. split; [reflexivity|].
  clear -F Hn. induction F as [|node info nodes infos [o E] _ IH]; [constructor|].
  inversion Hn as [|? ? Hg Hr]; subst.
  constructor; [|now apply IH].
  destruct (parseVSInfo_good mgmVersion node Hg)
    as (info' & o' & n & cfg & v & -> & _ & _ & E' & _ & P).
  exists n. split; [reflexivity|]. rewrite E' in E. now injection E as <- _.
Qed.

Lemma parseVSsInfo_one_record_per_node_witness :
  exists infos out,
    parseVSsInfo "5.1.22" (NodeLSResponse.mk "" [Some exampleNode; Some exampleNode])
    = Ok (infos, out) /\
    Forall2 (fun node info =>
               exists n, node = Some n /\
                 VSInfo.EOSmgm info = "5.1.22" /\
                 VSInfo.Hostname info = before ":" (NodeLS.HostPort n) /\
                 VSInfo.Port info = before ":" (after ":" (NodeLS.HostPort n)))
            [Some exampleNode; Some exampleNode] infos.
Proof.
  apply (parseVSsInfo_one_record_per_node "5.1.22"
           (NodeLSResponse.mk "" [Some exampleNode; Some exampleNode]));
    [reflexivity|].
  repeat constructor; (eexists _, _; repeat split; reflexivity).
Defined.

Lemma parseVSsLoop_bad (mgm : string) (pre post : list (option NodeLS.t))
    (bad : option NodeLS.t) (p : panic) (vsinfos : list VSInfo.t)
    (out : list string) :
  Forall goodNode pre -> parseVSInfo mgm bad = Panic p ->
  parseVSsLoop mgm vsinfos out (pre ++ bad :: post) = Panic p.
Proof.
  intros H Hb; revert vsinfos out; induction H as [|node nodes Hn _ IH];
    intros vsinfos out; cbn [app parseVSsLoop].
  - now rewrite Hb.
  - destruct (parseVSInfo_good mgm node Hn)
      as (info & o & n & cfg & v & _ & _ & _ & -> & _).
    cbn [mbind result_bind]. apply IH.
Qed.

(** X19.  The first node that cannot be handled aborts the whole batch with a
    panic, and the records of the nodes before it are lost: a nil node
    or a node without configuration is a nil dereference, a hostport
    without [:] an index out of range.  An error message in the document
    is returned as an error before any node is looked at. *)
Theorem parseVSsInfo_aborts_at_first_bad_node (mgmVersion : string)
    (msg : string) (pre post : list (option NodeLS.t)) :
  Forall goodNode pre ->
  (parseVSsInfo mgmVersion (NodeLSResponse.mk "" (pre ++ None :: post))
     = Panic NilDereference) /\
  (forall n, NodeLS.Cfg n = None -> hasByte ":" (NodeLS.HostPort n) = true ->
     parseVSsInfo mgmVersion (NodeLSResponse.mk "" (pre ++ Some n :: post))
     = Panic NilDereference) /\
  (forall n, hasByte ":" (NodeLS.HostPort n) = false ->
     parseVSsInfo mgmVersion (NodeLSResponse.mk "" (pre ++ Some n :: post))
     = Panic (IndexOutOfRange 1 1)) /\
  (forall nodes, msg <> "" ->
     parseVSsInfo mgmVersion (NodeLSResponse.mk msg nodes)
     = Err (ErrorString msg)).
Proof.
  intros H. unfold parseVSsInfo. cbn [NodeLSResponse.ErrorMsg
    NodeLSResponse.Result String.eqb negb].
  split; [|split; [|split]].
  - now apply parseVSsLoop_bad.
  - intros n Hc Hh. apply parseVSsLoop_bad; [exact H|].
    unfold parseVSInfo. cbn [mbind result_bind].
    rewrite getHostname_colon by exact Hh. cbn [mbind result_bind].
    now rewrite Hc.
  - intros n Hh. apply parseVSsLoop_bad; [exact H|].
    unfold parseVSInfo. cbn [mbind result_bind].
    now rewrite getHostname_no_colon by exact Hh.
  - intros nodes Hm. now destruct (String.eqb_spec msg "").
Qed.

Lemma parseVSsInfo_aborts_at_first_bad_node_witness :
  parseVSsInfo "5.1.22"
    (NodeLSResponse.mk "" ([Some exampleNode] ++ None :: [Some exampleNode]))
  = Panic NilDereference.
Proof.
  apply (proj1 (parseVSsInfo_aborts_at_first_bad_node "5.1.22" ""
                  [Some exampleNode] [Some exampleNode]
                  ltac:(repeat constructor;
                        (eexists _, _; repeat split; reflexivity)))).
Defined.



End VersionMore.

Section NamespaceMore.
Import Utf8 Unicode Strings.

Lemma foldl_assign {A B : Type} (p : B -> bool) (x : A) (l : list B)
    (old : option A) :
  foldl (fun acc k => if p k then Some x else acc) old l = old \/
  foldl (fun acc k => if p k then Some x else acc) old l = Some x.
Proof.
  revert old; induction l as [|k l IH]; intros old; [now left|].
  cbn [foldl]. destruct (p k); [|apply IH].
  destruct (IH (Some x)) as [-> | ->]; now right.
Qed.

Lemma mapIndex_lookup (kv : gmap string string) (k v : string) :
  mapIndex kv k = v -> v <> "" -> kv !! k = Some v.
Proof.
  unfold mapIndex. destruct (kv !! k) as [x|]; cbn; [now intros -> | congruence].
Qed.

(** A mapping with the two identity keys and at most three keys has at
    most one further key. *)
Lemma third_key (kv : gmap string string) :
  is_Some (kv !! "uid") -> is_Some (kv !! "gid") -> size kv <= 3 ->
  exists key, forall k, k <> "uid" -> k <> "gid" -> k <> key -> kv !! k = None.
Proof.
  intros [u Hu] [g Hg] Hs.
  set (m := delete "uid" (delete "gid" kv)).
  assert (Hm : forall k, k <> "uid" -> k <> "gid" -> kv !! k = m !! k).
  { intros k H1 H2. unfold m. now rewrite !lookup_delete_ne. }
  assert (Hsz : size m <= 1).
  { unfold m.
    rewrite (map_size_delete_Some "uid")
      by (rewrite lookup_delete_ne by done; eauto).
    rewrite (map_size_delete_Some "gid") by eauto. lia. }
  destruct (map_choose_or_empty m) as [(i & x & Hi)|He].
  - exists i. intros k H1 H2 H3. rewrite Hm by done.
    assert (Hd : delete i m = ∅).
    { apply map_size_empty_inv. rewrite (map_size_delete_Some i m) by eauto. lia. }
    rewrite <- (lookup_delete_ne m i k) by done. now rewrite Hd.
  - exists "". intros k H1 H2 _. rewrite Hm by done. now rewrite He.
Qed.

Lemma nsFields_read :
  Forall (fun fk => reads nsInfoOf fk /\ fk.2 <> "uid" /\ fk.2 <> "gid") nsFields.
Proof.
  repeat (constructor;
          [split; [intros kv; reflexivity | split; discriminate]|]).
  constructor.
Qed.

(** X21.  A namespace record holds a single statistic: whenever a row assigns
    a record, all of its fields but the one of a single key are empty. *)
Theorem ns_record_single_statistic (kv : gmap string string) (st : NSState) :
  nsinfo (nsRow kv st) = nsinfo st \/
  (nsinfo (nsRow kv st) = Some (nsInfoOf kv) /\
   exists key,
     Forall (fun fk => fk.2 = key \/ fk.1 (nsInfoOf kv) = "") nsFields).
Proof.
  destruct (recordRow kv) eqn:E; [|left; now apply nsRow_record_kept].
  unfold recordRow in E. rewrite !andb_true_iff, negb_true_iff in E.
  destruct E as [[[Hu Hg] Hc] Hs].
  apply String.eqb_eq in Hu, Hg. apply Nat.leb_le in Hs.
  assert (Hr : nsinfo (nsRow kv st) = nsRange kv (nsinfo st)).
  { unfold nsRow. apply String.eqb_eq in Hu, Hg. rewrite Hu, Hg, Hc.
    cbn [andb]. apply Nat.leb_le in Hs. rewrite Hs. reflexivity. }
  rewrite Hr. unfold nsRange.
  destruct (foldl_assign
              (fun k => negb (String.eqb k "uid") && negb (String.eqb k "gid"))
              (nsInfoOf kv) (map fst (map_to_list kv)) (nsinfo st)) as [H|H];
    [now left|].
  right. split; [exact H|].
  destruct (third_key kv) as [key Hkey]; [| |exact Hs|].
  - exists "all". now apply mapIndex_lookup.
  - exists "all". now apply mapIndex_lookup.
  - exists key. eapply Forall_impl; [exact nsFields_read|].
    intros fk (Hread & H1 & H2). destruct (decide (fk.2 = key)); [now left|].
    right. rewrite Hread, Hkey by done. reflexivity.
Qed.

Lemma nsRow_activity_set (kv : gmap string string) (st : NSState)
    (a : NSActivityInfo.t) :
  nsactinfo st = Some a ->
  exists a', nsactinfo (nsRow kv st) = Some a' /\
             nsactinfos (nsRow kv st) = (nsactinfos st ++ [a'])%list.
Proof.
  intros H. unfold nsRow.
  destruct (String.eqb (mapIndex kv "uid") "all" &&
            String.eqb (mapIndex kv "gid") "all");
    [|cbn; rewrite H; eauto].
  destruct (mapHas kv "cmd").
  - destruct (String.eqb (mapIndex kv "5s") "0.00" && _ && _ && _);
      cbn; rewrite ?H; eauto.
  - destruct (Nat.leb (size kv) 3); cbn; rewrite H; eauto.
Qed.

Lemma nsRow_activity_first (kv : gmap string string) (st : NSState) :
  activityRow kv = true ->
  nsactinfo (nsRow kv st) = Some (nsActivityInfoOf kv) /\
  nsactinfos (nsRow kv st) = (nsactinfos st ++ [nsActivityInfoOf kv])%list.
Proof.
  unfold activityRow, nsRow. rewrite !andb_true_iff, negb_true_iff.
  intros [[[Hu Hg] Hc] Hz]. rewrite Hu, Hg, Hc, Hz. cbn. split; reflexivity.
Qed.

Lemma nsRow_activity_none (kv : gmap string string) (st : NSState) :
  nsactinfo st = None -> activityRow kv = false ->
  nsactinfo (nsRow kv st) = None /\ nsactinfos (nsRow kv st) = nsactinfos st.
Proof.
  intros H Ha. split.
  - unfold nsRow, activityRow in *.
    destruct (String.eqb (mapIndex kv "uid") "all" &&
              String.eqb (mapIndex kv "gid") "all"); [|exact H].
    destruct (mapHas kv "cmd").
    + cbn [andb negb] in Ha. apply negb_false_iff in Ha. rewrite Ha. exact H.
    + destruct (Nat.leb (size kv) 3); exact H.
  - rewrite nsRow_activity_fresh, Ha by exact H. apply app_nil_r.
Qed.

Lemma parseNSsLoop_after (post : list string) (st : NSState)
    (a : NSActivityInfo.t) :
  nsactinfo st = Some a -> Forall lineOK post ->
  exists st' more,
    parseNSsLoop st post = Ok st' /\
    nsactinfos st' = (nsactinfos st ++ more)%list /\
    length more = length (filter (fun rl => rl <> "") post).
Proof.
  intros Ha H; revert st a Ha; induction H as [|rl rest Hrl _ IH]; intros st a Ha.
  - exists st, []. repeat split. now rewrite app_nil_r.
  - cbn [parseNSsLoop]. destruct (String.eqb_spec rl "") as [->|Hne].
    + rewrite filter_cons_False by (intros ?; done). now apply (IH st a).
    + destruct (getMap_lineOK rl Hrl) as [kv ->]. cbn [mbind result_bind].
      destruct (nsRow_activity_set kv st a Ha) as (a' & Ha' & Hs).
      destruct (IH (nsRow kv st) a' Ha') as (st' & more & -> & Hm & Hl).
      exists st', (a' :: more). split; [reflexivity|].
      rewrite filter_cons_True by done.
      split; [rewrite Hm, Hs; now rewrite <- app_assoc | cbn; now rewrite Hl].
Qed.

Lemma parseNSsLoop_before (pre rest : list string) (st : NSState) :
  nsactinfo st = None -> Forall lineOK pre ->
  (forall l kv, l ∈ pre -> getMap l = Ok kv -> activityRow kv = false) ->
  exists st',
    parseNSsLoop st (pre ++ rest) = parseNSsLoop st' rest /\
    nsactinfo st' = None /\ nsactinfos st' = nsactinfos st.
Proof.
  intros Ha H; revert st Ha; induction H as [|rl pre Hrl _ IH]; intros st Ha Hno.
  - now exists st.
  - cbn [app parseNSsLoop]. destruct (String.eqb_spec rl "") as [->|Hne].
    + apply IH; [exact Ha|]. intros l kv Hl. apply Hno. now right.
    + destruct (getMap_lineOK rl Hrl) as [kv Hkv]. rewrite Hkv.
      cbn [mbind result_bind].
      assert (Hk : activityRow kv = false) by (apply (Hno rl); [now left | exact Hkv]).
      destruct (nsRow_activity_none kv st Ha Hk) as [H1 H2].
      destruct (IH (nsRow kv st) H1) as (st' & -> & H3 & H4).
      { intros l kv' Hl. apply Hno. now right. }
      exists st'. repeat split; congruence.
Qed.

(** X22.  From the first row that builds an activity record on, every
    non-empty line adds one record to the activity sequence, whatever
    the line holds: the sequence starts with the record of that row and
    has one entry for it and one for each non-empty line behind it. *)
Theorem ns_activity_one_record_per_later_line (raw row : string)
    (pre post : list string) (kv : gmap string string) :
  Strings.Split raw newline = (pre ++ row :: post)%list ->
  Forall lineOK (Strings.Split raw newline) ->
  (forall l kv', l ∈ pre -> getMap l = Ok kv' -> activityRow kv' = false) ->
  row <> "" -> getMap row = Ok kv -> activityRow kv = true ->
  exists infos acts,
    parseNSsInfo raw = Ok (infos, acts) /\
    head acts = Some (nsActivityInfoOf kv) /\
    length acts = S (length (filter (fun rl => rl <> "") post)).
Proof.
  intros Hsplit Hok Hpre Hne Hkv Hact. unfold parseNSsInfo.
  rewrite Hsplit in *. apply Forall_app in Hok as [Hok1 Hok2].
  inversion Hok2 as [|? ? _ Hok3]; subst.
  destruct (parseNSsLoop_before pre (row :: post) (mkNS None None [] []))
    as (st1 & -> & Hn & Hl); [reflexivity | exact Hok1 | exact Hpre|].
  cbn [parseNSsLoop]. destruct (String.eqb_spec row "") as [|_]; [done|].
  rewrite Hkv. cbn [mbind result_bind].
  destruct (nsRow_activity_first kv st1 Hact) as [H1 H2].
  destruct (parseNSsLoop_after post (nsRow kv st1) _ H1 Hok3)
    as (st2 & more & -> & Hm & Hlen).
  cbn [mbind result_bind]. do 2 eexists. split; [reflexivity|].
  rewrite Hm, H2, Hl. cbn [nsactinfos app]. split; [reflexivity|].
  cbn. now rewrite Hlen.
Qed.

Lemma ns_activity_one_record_per_later_line_witness :
  exists infos acts,
    parseNSsInfo (nsRaw [rowFiles; rowOpen; rowClose; rowUser]) = Ok (infos, acts) /\
    head acts = Some (nsActivityInfoOf
                        (<["uid":="all"]> (<["gid":="all"]> (<["cmd":="Open"]>
                         (<["total":="5"]> (<["5s":="1.00"]> (<["60s":="0.00"]>
                         (<["300s":="0.00"]> (<["3600s":="0.00"]> ∅))))))))) /\
    length acts = S (length (filter (fun rl => rl <> "") [rowClose; rowUser; ""])).
Proof.
  apply (ns_activity_one_record_per_later_line
           (nsRaw [rowFiles; rowOpen; rowClose; rowUser]) rowOpen
           [rowFiles] [rowClose; rowUser; ""]).
  - vm_compute. reflexivity.
  - assert (E : Split (nsRaw [rowFiles; rowOpen; rowClose; rowUser]) newline
                = [rowFiles; rowOpen; rowClose; rowUser; ""])
      by (vm_compute; reflexivity).
    rewrite E.
    repeat (constructor; [unfold lineOK; vm_compute; repeat constructor|]).
    constructor.
  - intros l kv' Hl Hg. apply list_elem_of_singleton in Hl. subst l.
    assert (E : getMap rowFiles
                = Ok (<["uid":="all"]> (<["gid":="all"]>
                       (<["ns.total.files":="10"]> ∅))))
      by (vm_compute; reflexivity).
    rewrite E in Hg. injection Hg as <-. vm_compute. reflexivity.
  - discriminate.
  - vm_compute. reflexivity.
  - vm_compute. reflexivity.
Defined.

End NamespaceMore.

Section ExecuteMore.
Import Utf8 Unicode Strings.

(** X23.  [execute] neither swallows nor invents a failure: it returns no
    error exactly when the run returned none, and an error of the run
    that is not an exit error (a start failure, a deadline) is handed on
    as it is. *)
Theorem execute_keeps_failure (run : RunOutcome) :
  ((execute run).2 = None <-> runErr run = None) /\
  ((execute_api run).2 = None <-> runErr run = None) /\
  (forall e, runErr run = Some e -> isExitError e = false ->
     (execute run).2 = Some e /\ (execute_api run).2 = Some e) /\
  (runErr run = Some (ExitError None) ->
     (execute run).2 = Some (ExitError None) /\
     (execute_api run).2 = Some (ExitError None)).
Proof.
  unfold execute, execute_api, executeWith.
  destruct run as [o e [[[s|]| | |]|]]; cbn [runErr snd];
    try destruct (s =? 2)%Z;
    (split; [split; intros; congruence|]);
    (split; [split; intros; congruence|]);
    (split; [intros e0 [= <-] Hx; (discriminate Hx || (split; reflexivity))
            | intros; first [discriminate | split; congruence]]).
Qed.

Lemma execute_keeps_failure_witness :
  (execute (mkRun "" "" (Some (RunError "exec: not started")))).2
    = Some (RunError "exec: not started") /\
  (execute_api (mkRun "" "" (Some (RunError "exec: not started")))).2
    = Some (RunError "exec: not started").
Proof.
  apply (proj1 (proj2 (proj2 (execute_keeps_failure
           (mkRun "" "" (Some (RunError "exec: not started"))))))
           (RunError "exec: not started")); reflexivity.
Defined.

End ExecuteMore.

(** * The group collector *)

Section CollectorFacts.
Import Utf8 Unicode Strings.
Context {float64 ZapLogger World : Type}.
Context (ParseFloat : string -> option float64) (ofInt : Z -> float64).
Context (TempDir : string) (NewProduction : option ZapLogger).
Context (spawn : World -> Client.Cmd -> RunOutcome * World).
Context (Lookup : string -> result Client.User).

Local Abbreviation Collect :=
  (Collector.Collect float64 ParseFloat ofInt ZapLogger TempDir NewProduction
     World spawn Lookup).
Local Abbreviation collectGroup := (Collector.collectGroup float64 ParseFloat ofInt).
Local Abbreviation setParsed := (Collector.setParsed float64 ParseFloat).
Local Abbreviation mkSet := (Collector.mkSet float64).
Local Abbreviation vec := (Collector.vec float64).
Local Abbreviation lvs := (Collector.lvs float64).

Lemma filter_setParsed (g g' : Collector.Gauge) (m : GroupInfo.t) (field : string) :
  filter (fun c => vec c = g) (setParsed g' m field) =
  if decide (g' = g) then setParsed g' m field else [].
Proof.
  unfold Collector.setParsed.
  destruct (ParseFloat field); [|now destruct (decide (g' = g))].
  rewrite filter_cons, filter_nil. cbn [Collector.vec].
  now destruct (decide (g' = g)).
Qed.

Ltac decide_gauges :=
  repeat match goal with
         | |- context [decide (?a = ?b)] =>
           first [ rewrite (decide_True (P := a = b)) by reflexivity
                 | rewrite (decide_False (P := a = b)) by discriminate ]
         end.

Ltac filter_gauge :=
  unfold Collector.collectGroup;
  rewrite !filter_app, !filter_setParsed, !filter_cons, !filter_nil;
  cbn [Collector.vec]; decide_gauges; cbn [app];
  cbn [groupInfoOf GroupInfo.Name GroupInfo.CfgStatus GroupInfo.Nofs
       GroupInfo.AvgStatDiskLoad GroupInfo.SigStatDiskLoad
       GroupInfo.SumStatDiskReadratemb GroupInfo.SumStatDiskWriteratemb
       GroupInfo.SumStatNetEthratemib GroupInfo.SumStatNetInratemib
       GroupInfo.SumStatNetOutratemib GroupInfo.SumStatRopen
       GroupInfo.SumStatWopen GroupInfo.SumStatStatfsUsedbytes
       GroupInfo.SumStatStatfsFreebytes GroupInfo.SumStatStatfsCapacity
       GroupInfo.SumStatUsedfiles GroupInfo.SumStatStatfsFfree
       GroupInfo.SumStatStatfsFiles GroupInfo.DevStatStatfsFilled
       GroupInfo.AvgStatStatfsFilled GroupInfo.SigStatStatfsFilled
       GroupInfo.CfgStatBalancing GroupInfo.SumStatBalancerRunning
       GroupInfo.SumStatDrainerRunning].

Lemma Collect_listing (w : World) :
  Collect w =
  match Client.ListGroup ZapLogger World spawn Lookup
          (Client.mk ZapLogger
             (Client.init ZapLogger TempDir NewProduction
                (Client.mkOptions ZapLogger "" "" "root://eospps.cern.ch" "" false None)))
          "root" w with
  | (Err e, w') => (Collector.Panics (Collector.PanicError e), [], w')
  | (Panic p, w') => (Collector.Panics (Collector.PanicRuntime p), [], w')
  | (Ok mds, w') =>
    (Collector.Returns (None, Collector.collectorList),
     concat (map collectGroup mds), w')
  end.
Proof.
  unfold Collector.Collect, Collector.collectGroupDF, Client.New.
  destruct (Client.ListGroup _ _ _ _ _ _ _) as [[mds|e|p] w']; reflexivity.
Qed.

Lemma ListGroup_run (w : World) (u : Client.User) (c : Client.t ZapLogger) :
  Lookup "root" = Ok u ->
  Client.URL _ (Client.opt _ c) = "root://eospps.cern.ch" ->
  Client.ListGroup ZapLogger World spawn Lookup c "root" w =
  let run := (spawn w (groupCmd u)).1 in
  (match (execute run).2 with
   | Some e => Err e
   | None => parseGroupsInfo (execute run).1.1
   end, (spawn w (groupCmd u)).2).
Proof.
  intros Hu Hurl. unfold Client.ListGroup, Client.listAs, Client.getUnixUser.
  rewrite Hu. unfold Client.execute, Client.Command.
  cbn [Client.Path Client.Args]. rewrite Hurl.
  fold (listCmd "root://eospps.cern.ch" u "group"). fold (groupCmd u).
  destruct (spawn w (groupCmd u)) as [run w']. cbn [fst snd].
  destruct (execute run) as [[out err] [e|]]; reflexivity.
Qed.



End CollectorFacts.

Section CollectorExamples.
Import Utf8 Unicode Strings.


End CollectorExamples.
